(** * Search-and-aggregation engine of the legal-text search tool

    A shallow embedding of [csv_text_search.py] (class [TextSearcher]):
    corpus assembly, word-boundary matching, context extraction and
    aggregation, together with the properties the specification states
    about them; and of the helpers around it, the paging and title
    functions of [csv_search_app.py] and the query preparation of
    [preprocess.py].

    Conventions of the embedding.
    - A Python [str] is a list of characters.  Characters are the code
      points U+0000..U+00FF (8 bits, Latin-1), on which [str.lower] acts
      character by character; the classes [\w] and whitespace follow
      CPython's tables on that range.
    - A Python [int] is a [Z]; lengths and offsets that Python keeps
      non-negative are [nat].
    - A missing cell (pandas NaN) is [None]; a cell that is present holds
      a string.  Identifiers ([itemid]) are such strings: the column is
      read as text.
    - A [DataFrame] is the list of its rows, in row order.
    - A Python exception is the failure [None] of the store monad. *)

From Stdlib Require Import Ascii String.
From Stdlib Require Import List ZArith Lia Bool Arith PeanoNat.
Import ListNotations.

Definition str := list ascii.

Coercion list_ascii_of_string : string >-> list.

Open Scope string_scope.
Open Scope list_scope.
Open Scope nat_scope.

(** ** Python string primitives *)

Module Py.

Definition code (c : ascii) : nat := nat_of_ascii c.

Definition between (lo hi n : nat) : bool := (lo <=? n) && (n <=? hi).

(** [str.isspace] on one character: TAB..CR, FS..US, SPACE, NEL, NBSP. *)
Definition isspace (c : ascii) : bool :=
  let n := code c in
  between 9 13 n || between 28 32 n || (n =? 133) || (n =? 160).

(** [str.isalnum] on one character (alphabetic, decimal, digit or numeric). *)
Definition isalnum (c : ascii) : bool :=
  let n := code c in
  between 48 57 n || between 65 90 n || between 97 122 n
  || (n =? 170) || between 178 179 n || (n =? 181) || between 185 186 n
  || between 188 190 n || between 192 214 n || between 216 246 n
  || between 248 255 n.

(** [str.lower] on one character: A..Z and the upper-case letters
    U+00C0..U+00DE (all but the multiplication sign U+00D7). *)
Definition lower_char (c : ascii) : ascii :=
  let n := code c in
  if between 65 90 n || (between 192 222 n && negb (n =? 215))
  then ascii_of_nat (n + 32) else c.

(** [str.lower]: on this range every character has a lower-case form of
    one character, so offsets in [s.lower()] are offsets in [s].  (The one
    character whose lower-case form has two, U+0130, lies outside it.) *)
Definition lower (s : str) : str := map lower_char s.

Definition strip_left (s : str) : str :=
  (fix go (s : str) : str :=
     match s with
     | c :: s' => if isspace c then go s' else s
     | [] => []
     end) s.

(** [str.strip()] *)
Definition strip (s : str) : str := rev (strip_left (rev (strip_left s))).

(** [str.split()] without arguments: the maximal runs of non-whitespace
    characters, in order. *)
Fixpoint split (s : str) : list str :=
  match s with
  | [] => []
  | c :: s' =>
      if isspace c then split s'
      else match s' with
           | [] => [[c]]
           | d :: _ =>
               if isspace d then [c] :: split s'
               else match split s' with
                    | t :: ts => (c :: t) :: ts
                    | [] => [[c]]
                    end
           end
  end.

(** [sep.join(l)] *)
Fixpoint join (sep : str) (l : list str) : str :=
  match l with
  | [] => []
  | [x] => x
  | x :: l' => x ++ sep ++ join sep l'
  end.

(** Index normalisation of a slice bound: a negative bound counts from the
    end, and every bound is clamped to [0, len]. *)
Definition norm_index (len i : Z) : Z :=
  if (i <? 0)%Z then Z.max 0 (i + len) else Z.min i len.

(** [l[a:b]] *)
Definition slice {A : Type} (l : list A) (a b : Z) : list A :=
  let n := Z.of_nat (length l) in
  let a' := norm_index n a in
  let b' := norm_index n b in
  firstn (Z.to_nat (b' - a')) (skipn (Z.to_nat a') l).

Definition str_eqb (a b : str) : bool :=
  if list_eq_dec ascii_dec a b then true else false.

(** [a < b] and [a <= b] on strings: lexicographic on code points. *)
Fixpoint str_leb (a b : str) : bool :=
  match a, b with
  | [], _ => true
  | _ :: _, [] => false
  | x :: a', y :: b' =>
      if code x <? code y then true
      else if code y <? code x then false
      else str_leb a' b'
  end.

(** [s.split(sep)] for a separator of one character: the pieces between
    the separators, empty pieces included; the empty string gives one
    empty piece. *)
Fixpoint split_on (sep : ascii) (s : str) : list str :=
  match s with
  | [] => [[]]
  | c :: s' =>
      if Ascii.eqb c sep then [] :: split_on sep s'
      else match split_on sep s' with
           | t :: ts => (c :: t) :: ts
           | [] => [[c]]
           end
  end.

(** [s.replace(old, new)] for an [old] of one character. *)
Definition replace_char (old : ascii) (new : str) (s : str) : str :=
  flat_map (fun c => if Ascii.eqb c old then new else [c]) s.

End Py.

(** ** The fragment of Python's [re] the program uses *)

Module Re.

(** Patterns: the empty pattern, one literal character, the assertion
    [\b], concatenation and the greedy optional group [(r)?]. *)
Inductive regex : Type :=
| Eps
| Chr (c : ascii)
| Bnd
| Cat (r1 r2 : regex)
| Opt (r : regex).

(** [\w]: alphanumeric or underscore. *)
Definition is_word (c : ascii) : bool := Py.isalnum c || (Py.code c =? 95).

Definition word_at (s : str) (i : nat) : bool :=
  match nth_error s i with
  | Some c => is_word c
  | None => false
  end.

(** [\b] holds at offset [i] when exactly one of the characters before
    and after the offset is a word character. *)
Definition at_boundary (s : str) (i : nat) : bool :=
  xorb (match i with 0 => false | S j => word_at s j end) (word_at s i).

(** The offsets at which a match of [r] that starts at offset [i] can end,
    in the order in which the backtracking matcher tries them. *)
Fixpoint ends (r : regex) (s : str) (i : nat) : list nat :=
  match r with
  | Eps => [i]
  | Chr c =>
      match nth_error s i with
      | Some d => if Ascii.eqb c d then [S i] else []
      | None => []
      end
  | Bnd => if at_boundary s i then [i] else []
  | Cat r1 r2 => flat_map (ends r2 s) (ends r1 s i)
  | Opt r1 => ends r1 s i ++ [i]
  end.

(** One match attempt at offset [i]; an empty match is refused when the
    previous match was empty and ended here. *)
Definition match_at (r : regex) (s : str) (i : nat) (allow_empty : bool)
  : option nat :=
  find (fun e => allow_empty || negb (e =? i)) (ends r s i).

(** A match object: its [start()] and [end()]. *)
Record match_obj : Type := { m_start : nat; m_end : nat }.

Fixpoint scan (fuel : nat) (r : regex) (s : str) (pos : nat) : option match_obj :=
  match fuel with
  | 0 => None
  | S fuel' =>
      match match_at r s pos true with
      | Some e => Some {| m_start := pos; m_end := e |}
      | None => scan fuel' r s (S pos)
      end
  end.

(** [re.search(r, s)]: the leftmost match. *)
Definition search (r : regex) (s : str) : option match_obj :=
  scan (S (length s)) r s 0.

Fixpoint finditer_from (fuel : nat) (r : regex) (s : str) (pos : nat)
  (must_advance : bool) : list match_obj :=
  match fuel with
  | 0 => []
  | S fuel' =>
      if length s <? pos then []
      else match match_at r s pos (negb must_advance) with
           | Some e =>
               {| m_start := pos; m_end := e |}
               :: (if e =? pos then finditer_from fuel' r s pos true
                   else finditer_from fuel' r s e false)
           | None => finditer_from fuel' r s (S pos) false
           end
  end.

(** [list(re.finditer(r, s))]: the non-overlapping matches, left to right. *)
Definition finditer (r : regex) (s : str) : list match_obj :=
  finditer_from (2 * S (length s)) r s 0 false.

(** The pattern [re.escape(q)] compiles to: the characters of [q], each
    one literal. *)
Fixpoint escape (q : str) : regex :=
  match q with
  | [] => Eps
  | c :: q' => Cat (Chr c) (escape q')
  end.

(** [r'\b' + re.escape(q) + r'\b'] *)
Definition word_pattern (q : str) : regex := Cat Bnd (Cat (escape q) Bnd).

End Re.

(** ** The fragment of pandas the program relies on *)

Module Pd.

(** The dtype of a column whose cells are strings or missing. *)
Inductive dtype : Type := object | float64.

Definition notna {A : Type} (v : option A) : bool :=
  match v with Some _ => true | None => false end.

(** The dtype [pd.read_csv] gives such a column: [float64] when the column
    has a cell and every cell is missing, [object] when a cell holds a
    string and when the table has no row. *)
Definition infer_dtype {A : Type} (cells : list (option A)) : dtype :=
  match cells with
  | [] => object
  | _ :: _ => if existsb notna cells then object else float64
  end.

End Pd.

(** ** The search engine: class [TextSearcher] *)

Module TextSearcher.

(** *** Context extraction *)

Definition SEP : str := " | ".
Definition ELLIPSIS : str := "...".
Definition MARK : str := "**".

(** [word_pos = max(0, len(text[:char_pos].split()) - 1)] *)
Definition word_pos (text : str) (char_pos : nat) : Z :=
  Z.max 0 (Z.of_nat (length (Py.split (firstn char_pos text))) - 1).

(** [start_idx = max(0, word_pos - context_words)] *)
Definition start_idx (wp context_words : Z) : Z := Z.max 0 (wp - context_words).

(** [end_idx = min(len(words), word_pos + context_words + 1)] *)
Definition end_idx (words : list str) (wp context_words : Z) : Z :=
  Z.min (Z.of_nat (length words)) (wp + context_words + 1).

Definition is_some {A : Type} (o : option A) : bool :=
  match o with Some _ => true | None => false end.

(** One step of the highlighting loop: a word that itself matches the
    pattern is wrapped in the emphasis markers. *)
Definition highlight (pattern : Re.regex) (word : str) : str :=
  if is_some (Re.search pattern (Py.lower word))
  then MARK ++ word ++ MARK
  else word.

(** [context_words_list = words[start_idx:end_idx]] *)
Definition window (text : str) (words : list str) (context_words : Z)
  (char_pos : nat) : list str :=
  let wp := word_pos text char_pos in
  Py.slice words (start_idx wp context_words) (end_idx words wp context_words).

(** The body of [for match in matches]: the context string of the
    occurrence that starts at offset [char_pos]. *)
Definition context_of (text : str) (words : list str) (pattern : Re.regex)
  (context_words : Z) (char_pos : nat) : str :=
  let wp := word_pos text char_pos in
  let s := start_idx wp context_words in
  let e := end_idx words wp context_words in
  let context_words_list := window text words context_words char_pos in
  let context := Py.join " " (map (highlight pattern) context_words_list) in
  let context := if (0 <? s)%Z then ELLIPSIS ++ context else context in
  if (e <? Z.of_nat (length words))%Z then context ++ ELLIPSIS else context.

Definition get_context (text query : str) (context_words : Z) : str :=
  let pattern := Re.word_pattern (Py.lower query) in
  let text_lower := Py.lower text in
  let matches := Re.finditer pattern text_lower in
  match matches with
  | [] => []
  | _ :: _ =>
      let words := Py.split text in
      Py.join SEP
        (map (fun m => context_of text words pattern context_words (Re.m_start m))
           matches)
  end.

(** *** Tables

    The three tables as [pd.read_csv] returns them.  A row of the full
    dataset has the eight columns that [usecols] keeps; the law table has
    the key and the text; the assembled corpus has the nine columns of
    [_columns].  The key [itemid] is a string and is never missing. *)

Record dataset_row : Type := {
  itemid : str;
  appno : option str;
  docname : option str;
  doctype : option str;
  languageisocode : option str;
  article : option str;
  violation : option str;
  year : option str
}.

Record law_row : Type := {
  law_itemid : str;
  law_THE_LAW : option str
}.

Record case_row : Type := {
  meta : dataset_row;
  THE_LAW : option str
}.

Definition DataFrame : Type := list case_row.

(** The query table: its column names and, per row, one cell per column. *)
Record query_table : Type := {
  columns : list str;
  cells : list (list (option str))
}.

(** [pd.isna] *)
Definition isna {A : Type} (v : option A) : bool :=
  match v with Some _ => false | None => true end.

(** [df_all.merge(law, how='left', on='itemid')]: every left row, in
    order, once per law row with the same key (in law order), or once
    with a missing text when no law row has its key. *)
Definition merge_left (df_all : list dataset_row) (law : list law_row)
  : DataFrame :=
  flat_map
    (fun l =>
       match filter (fun r => Py.str_eqb (law_itemid r) (itemid l)) law with
       | [] => [{| meta := l; THE_LAW := None |}]
       | rs => map (fun r => {| meta := l; THE_LAW := law_THE_LAW r |}) rs
       end)
    df_all.

(** [search_data[LANGUAGE].str.lower() == language_filter.lower()] on a
    column of dtype [object]: a missing code compares unequal. *)
Definition language_mask (language_filter : str) (row : case_row) : bool :=
  match languageisocode (meta row) with
  | Some l => Py.str_eqb (Py.lower l) (Py.lower language_filter)
  | None => false
  end.

(** *** The object store

    Data frames are objects: a variable holds a reference, [copy()] and
    boolean indexing make a new object, an assignment to an attribute of a
    frame writes the object in place, and reading a row does not write.
    A frame object has its header, the dtype of its language column, which
    merging, boolean indexing and copying keep, and its rows.  The store
    maps a reference to the frame it denotes; an operation on a dangling
    reference fails, and so does an operation that raises. *)

Record frame : Type := {
  frame_columns : list str;
  language_dtype : Pd.dtype;
  frame_rows : DataFrame
}.

Definition loc : Type := nat.
Definition heap : Type := list frame.
Definition M (A : Type) : Type := heap -> option (A * heap).

Definition ret {A : Type} (a : A) : M A := fun h => Some (a, h).

Definition bind {A B : Type} (c : M A) (k : A -> M B) : M B :=
  fun h => match c h with
           | Some (a, h') => k a h'
           | None => None
           end.

Notation "x <- c ;; k" := (bind c (fun x => k))
  (at level 61, c at next level, right associativity).

(** [raise] *)
Definition raise {A : Type} : M A := fun _ => None.

Definition read (l : loc) : M frame :=
  fun h => match nth_error h l with
           | Some f => Some (f, h)
           | None => None
           end.

Definition alloc (f : frame) : M loc :=
  fun h => Some (length h, h ++ [f]).

Fixpoint update (h : heap) (l : loc) (f : frame) : heap :=
  match h, l with
  | [], _ => []
  | _ :: h', 0 => f :: h'
  | g :: h', S l' => g :: update h' l' f
  end.

(** Assignment in place to the object at [l]. *)
Definition write (l : loc) (f : frame) : M unit :=
  fun h => match nth_error h l with
           | Some _ => Some (tt, update h l f)
           | None => None
           end.

(** [df.copy()] *)
Definition df_copy (l : loc) : M loc := f <- read l ;; alloc f.

(** [df[mask]] and [df.loc[mask]] *)
Definition df_select (l : loc) (mask : case_row -> bool) : M loc :=
  f <- read l ;;
  alloc {| frame_columns := frame_columns f;
           language_dtype := language_dtype f;
           frame_rows := filter mask (frame_rows f) |}.

(** [df.columns = df.columns.str.strip()] *)
Definition strip_header (l : loc) : M unit :=
  f <- read l ;;
  write l {| frame_columns := map Py.strip (frame_columns f);
             language_dtype := language_dtype f;
             frame_rows := frame_rows f |}.

(** [df[LANGUAGE].str.lower() == value]: the mask.  The accessor [.str]
    raises AttributeError on a column whose dtype is not [object]. *)
Definition str_lower_eq (l : loc) (value : str) : M (case_row -> bool) :=
  f <- read l ;;
  match language_dtype f with
  | Pd.object => ret (language_mask value)
  | Pd.float64 => raise
  end.

(** [df.iterrows()] *)
Definition iterrows (l : loc) : M (list case_row) :=
  f <- read l ;; ret (frame_rows f).

(** The loops [for x in l: ... all_results.append(...)] *)
Fixpoint for_each {A B : Type} (l : list A) (body : A -> M (list B))
  : M (list B) :=
  match l with
  | [] => ret []
  | x :: l' => r <- body x ;; rs <- for_each l' body ;; ret (r ++ rs)
  end.

(** The instance: its attributes. *)
Record searcher : Type := {
  df_all : list dataset_row;
  law : list law_row;
  queries : query_table;
  dataset : loc
}.

(** *** Corpus assembly: [__init__] *)

Definition read_law (law : list law_row) (rows : option nat) : list law_row :=
  match rows with
  | Some n => firstn n law
  | None => law
  end.

Definition strip_columns (q : query_table) : query_table :=
  {| columns := map Py.strip (columns q); cells := cells q |}.

(** [self._columns] *)
Definition _columns : list str :=
  map list_ascii_of_string
    ["itemid"; "appno"; "docname"; "doctype"; "languageisocode"; "article";
     "violation"; "year"; "THE_LAW"].

Definition __init__ (dataset_csv : list dataset_row) (law_csv : list law_row)
  (queries_csv : query_table) (rows : option nat) : M searcher :=
  let law := read_law law_csv rows in
  merged <- alloc {| frame_columns := _columns;
                     language_dtype :=
                       Pd.infer_dtype (map languageisocode dataset_csv);
                     frame_rows := merge_left dataset_csv law |} ;;
  ds <- df_select merged (fun r => negb (isna (THE_LAW r))) ;;
  u <- strip_header ds ;;
  ret {| df_all := dataset_csv;
         law := law;
         queries := strip_columns queries_csv;
         dataset := ds |}.

(** *** Matching: [search_text] *)

(** One result dictionary.  [search_text] builds it without the key
    ['query_language'], which [search_all_queries] sets afterwards. *)
Record result : Type := {
  r_itemid : str;
  r_language : option str;
  r_query_word : str;
  r_context : str;
  r_THE_LAW : str;
  r_query_language : option str
}.

(** The body of [for idx, row in search_data.iterrows()]. *)
Definition search_row (query_word : str) (context_words : Z) (row : case_row)
  : list result :=
  match THE_LAW row with
  | None => []
  | Some fulltext =>
      let pattern := Re.word_pattern (Py.lower query_word) in
      if is_some (Re.search pattern (Py.lower fulltext))
      then [{| r_itemid := itemid (meta row);
               r_language := languageisocode (meta row);
               r_query_word := query_word;
               r_context := get_context fulltext query_word context_words;
               r_THE_LAW := fulltext;
               r_query_language := None |}]
      else []
  end.

(** [if language_filter:] an absent or empty filter does not filter. *)
Definition filter_given (language_filter : option str) : option str :=
  match language_filter with
  | Some (c :: f) => Some (c :: f)
  | _ => None
  end.

Definition search_text (self : searcher) (query_word : str)
  (language_filter : option str) (context_words : Z) : M (list result) :=
  search_data <- df_copy (dataset self) ;;
  search_data <- match filter_given language_filter with
                 | Some f =>
                     mask <- str_lower_eq search_data f ;;
                     df_select search_data mask
                 | None => ret search_data
                 end ;;
  rows <- iterrows search_data ;;
  ret (flat_map (search_row query_word context_words) rows).

(** *** Aggregation: [search_all_queries] *)

Record summary : Type := {
  s_itemid : str;
  s_language : option str;
  s_query_word : str;
  s_query_language : option str;
  s_combined_context : str;
  s_match_count : nat;
  s_THE_LAW : str
}.

Definition language_columns : list str :=
  map list_ascii_of_string ["english"; "french"; "en"; "fr"].

Definition mem (x : str) (l : list str) : bool := existsb (Py.str_eqb x) l.

(** The columns searched: the language columns, or all columns when the
    table has none. *)
Definition query_columns (q : query_table) : list str :=
  match filter (fun col => mem (Py.lower col) language_columns) (columns q) with
  | [] => columns q
  | cols => cols
  end.

(** [query_row[col]] *)
Fixpoint cell (cols : list str) (row : list (option str)) (col : str)
  : option str :=
  match cols, row with
  | c :: cols', v :: row' => if Py.str_eqb c col then v else cell cols' row' col
  | _, _ => None
  end.

Definition language_of_column (col : str) : option str :=
  if mem (Py.lower col) (map list_ascii_of_string ["english"; "en"])
  then Some (list_ascii_of_string "eng")
  else if mem (Py.lower col) (map list_ascii_of_string ["french"; "fr"])
       then Some (list_ascii_of_string "fre")
       else None.

(** [result['query_language'] = col] *)
Definition set_query_language (col : str) (r : result) : result :=
  {| r_itemid := r_itemid r;
     r_language := r_language r;
     r_query_word := r_query_word r;
     r_context := r_context r;
     r_THE_LAW := r_THE_LAW r;
     r_query_language := Some col |}.

(** The body of [for col in query_columns]. *)
Definition search_cell (self : searcher) (context_words : Z)
  (query_row : list (option str)) (col : str) : M (list result) :=
  match cell (columns (queries self)) query_row col with
  | None => ret []
  | Some v =>
      match Py.strip v with
      | [] => ret []
      | query_word =>
          results <- search_text self query_word (language_of_column col)
                       context_words ;;
          ret (map (set_query_language col) results)
      end
  end.

(** The two nested loops that fill [all_results]. *)
Definition collect_results (self : searcher) (context_words : Z)
  : M (list result) :=
  for_each (cells (queries self))
    (fun query_row =>
       for_each (query_columns (queries self))
         (search_cell self context_words query_row)).

Definition key : Type := (str * str)%type.

Definition key_of (r : result) : key := (r_itemid r, r_query_word r).

Definition key_eqb (a b : key) : bool :=
  Py.str_eqb (fst a) (fst b) && Py.str_eqb (snd a) (snd b).

Definition key_leb (a b : key) : bool :=
  if Py.str_eqb (fst a) (fst b) then Py.str_leb (snd a) (snd b)
  else Py.str_leb (fst a) (fst b).

Fixpoint insert_key (k : key) (l : list key) : list key :=
  match l with
  | [] => [k]
  | x :: l' => if key_leb k x then k :: l else x :: insert_key k l'
  end.

Definition sort_keys (l : list key) : list key := fold_right insert_key [] l.

Fixpoint distinct (l : list key) : list key :=
  match l with
  | [] => []
  | k :: l' => k :: filter (fun x => negb (key_eqb x k)) (distinct l')
  end.

(** [results_df.groupby(['itemid', 'query_word'])]: one group per distinct
    key, the keys in sorted order, each group with its rows in their
    original order.  The order of the keys is that of Python on strings,
    which is right for identifiers read as text; a column of numerals
    alone is read as integers and ordered as numbers, and no property
    below is about the order of the groups. *)
Definition groupby (rs : list result) : list (key * list result) :=
  map (fun k => (k, filter (fun r => key_eqb (key_of r) k) rs))
    (sort_keys (distinct (map key_of rs))).

Definition non_empty (s : str) : bool :=
  match s with [] => false | _ :: _ => true end.

(** The body of the grouping loop; a group is never empty, its first row
    is [group.iloc[0]]. *)
Definition summarise (g : key * list result) : list summary :=
  match snd g with
  | [] => []
  | first :: _ =>
      [{| s_itemid := fst (fst g);
          s_language := r_language first;
          s_query_word := snd (fst g);
          s_query_language := r_query_language first;
          s_combined_context :=
            Py.join SEP (filter non_empty (map r_context (snd g)));
          s_match_count := length (snd g);
          s_THE_LAW := r_THE_LAW first |}]
  end.

Definition aggregate (all_results : list result) : list summary :=
  match all_results with
  | [] => []
  | _ :: _ => flat_map summarise (groupby all_results)
  end.

Definition search_all_queries (self : searcher) (context_words : Z)
  : M (list summary) :=
  all_results <- collect_results self context_words ;;
  ret (aggregate all_results).

End TextSearcher.

(** ** The result browser: [csv_search_app.py] *)

Module App.

(** [df.iloc[start_idx:end_idx]] with [start_idx = page_num * page_size]
    and [end_idx = start_idx + page_size]. *)
Definition paginate_dataframe {A : Type} (df : list A) (page_size page_num : Z)
  : list A :=
  let start_idx := (page_num * page_size)%Z in
  let end_idx := (start_idx + page_size)%Z in
  Py.slice df start_idx end_idx.

(** [(len(results) - 1) // page_size + 1 if len(results) > 0 else 1];
    [//] is floor division.  The page size is one of 5, 10, 25, 50, 100;
    for a page size of 0 Python raises, and nothing below is stated. *)
Definition total_pages (len page_size : Z) : Z :=
  if (0 <? len)%Z then ((len - 1) / page_size + 1)%Z else 1%Z.

(** [page_num * page_size + 1] *)
Definition start_record (page_size page_num : Z) : Z :=
  (page_num * page_size + 1)%Z.

(** [min((page_num + 1) * page_size, len(results))] *)
Definition end_record (len page_size page_num : Z) : Z :=
  Z.min ((page_num + 1) * page_size) len.

Definition AND_OTHERS : str := " and others".

(** The application numbers shown in a title: the first three of a
    semicolon-separated list. *)
Definition _preprocess_appno (appno : str) : str :=
  let appnos := Py.split_on ";" appno in
  if 3 <? length appnos
  then Py.join ";" (Py.slice appnos 0 3) ++ AND_OTHERS
  else Py.join ";" appnos.

End App.

(** ** The query preparation script: [preprocess.py] *)

Module Preprocess.

(** A row of the query file: the column [French] and the other columns. *)
Record query_row : Type := {
  others : list (option str);
  French : option str
}.

(** The two [str.replace] calls, in order. *)
Definition escape_parentheses (s : str) : str :=
  Py.replace_char ")" "\)\s" (Py.replace_char "(" "\(" s).

(** The rows [explode] makes of one row after [str.split(';')]: one per
    piece, with the other cells repeated; a row whose cell is missing stays
    as it is.  The two replacements are applied to each piece. *)
Definition explode_row (r : query_row) : list query_row :=
  match French r with
  | None => [r]
  | Some cell =>
      map (fun t => {| others := others r;
                       French := Some (escape_parentheses t) |})
        (Py.split_on ";" cell)
  end.

(** The script: [query['French'].str.split(';')], [explode] and the two
    [str.replace].  The accessor [.str] raises AttributeError on a column
    whose dtype is not [object]. *)
Definition preprocess (query : list query_row) : option (list query_row) :=
  match Pd.infer_dtype (map French query) with
  | Pd.object => Some (flat_map explode_row query)
  | Pd.float64 => None
  end.

End Preprocess.

(** ** Vocabulary of the properties *)

(** [x] occurs in [s] as a contiguous substring. *)
Definition infix_of (x s : str) : Prop := exists a b, s = a ++ x ++ b.

(** A string has an emphasised token: a non-empty token between two
    emphasis markers. *)
Definition has_emphasis (s : str) : Prop :=
  exists w, w <> [] /\ infix_of (TextSearcher.MARK ++ w ++ TextSearcher.MARK) s.




(** The key of a summary record. *)
Definition summary_key (s : TextSearcher.summary) : TextSearcher.key :=
  (TextSearcher.s_itemid s, TextSearcher.s_query_word s).

(** The frame object a searcher's [dataset] attribute denotes in a store,
    and its rows. *)
Definition corpus_frame (h : TextSearcher.heap) (self : TextSearcher.searcher)
  : option TextSearcher.frame :=
  nth_error h (TextSearcher.dataset self).

Definition corpus (h : TextSearcher.heap) (self : TextSearcher.searcher)
  : option TextSearcher.DataFrame :=
  option_map TextSearcher.frame_rows (corpus_frame h self).

(** The rows [search_text] scans: the corpus, restricted to the rows of
    the given language when a filter is given. *)
Definition searched_rows (d : TextSearcher.DataFrame)
  (language_filter : option str) : TextSearcher.DataFrame :=
  match TextSearcher.filter_given language_filter with
  | Some f => filter (TextSearcher.language_mask f) d
  | None => d
  end.

(** The match records of a query over a corpus. *)
Definition matches_of (d : TextSearcher.DataFrame) (query_word : str)
  (language_filter : option str) (context_words : Z)
  : list TextSearcher.result :=
  flat_map (TextSearcher.search_row query_word context_words)
    (searched_rows d language_filter).

(** The query [q] stands in [s] at offset [i] as a whole word: its
    characters are there, between two word boundaries. *)
Definition occurs_as_word (q s : str) (i : nat) : Prop :=
  Re.at_boundary s i = true /\
  firstn (length q) (skipn i s) = q /\
  Re.at_boundary s (i + length q) = true.

(** A string with no whitespace at either end. *)
Definition trimmed (s : str) : Prop :=
  match s with
  | [] => True
  | c :: _ => Py.isspace c = false /\ Py.isspace (last s c) = false
  end.

(** The match records of one cell of the query table over a corpus. *)
Definition cell_matches (self : TextSearcher.searcher)
  (d : TextSearcher.DataFrame) (context_words : Z)
  (query_row : list (option str)) (col : str) : list TextSearcher.result :=
  match TextSearcher.cell (TextSearcher.columns (TextSearcher.queries self))
          query_row col with
  | None => []
  | Some v =>
      match Py.strip v with
      | [] => []
      | query_word =>
          map (TextSearcher.set_query_language col)
            (matches_of d query_word (TextSearcher.language_of_column col)
               context_words)
      end
  end.

(** The match records of the whole query table over a corpus. *)
Definition collected (self : TextSearcher.searcher)
  (d : TextSearcher.DataFrame) (context_words : Z)
  : list TextSearcher.result :=
  flat_map
    (fun query_row =>
       flat_map (cell_matches self d context_words query_row)
         (TextSearcher.query_columns (TextSearcher.queries self)))
    (TextSearcher.cells (TextSearcher.queries self)).

(** The text of a row has the query as a whole word, letter case
    ignored. *)
Definition row_has_word (q : str) (row : TextSearcher.case_row) : Prop :=
  exists t i,
    TextSearcher.THE_LAW row = Some t /\
    occurs_as_word (Py.lower q) (Py.lower t) i.

(** The same, decided by the test of the code. *)
Definition row_matches (q : str) (row : TextSearcher.case_row) : bool :=
  match TextSearcher.THE_LAW row with
  | Some t =>
      TextSearcher.is_some (Re.search (Re.word_pattern (Py.lower q)) (Py.lower t))
  | None => false
  end.

(** Whether [search_text] gets past the [.str] accessor on the corpus
    frame [f]: it does unless a filter is given and the language column is
    not of dtype [object]. *)
Definition accessor_ok (f : TextSearcher.frame) (language_filter : option str)
  : bool :=
  match TextSearcher.filter_given language_filter,
        TextSearcher.language_dtype f with
  | Some _, Pd.float64 => false
  | _, _ => true
  end.

(** The frames a call of [search_text] that returns allocates: the copy
    and, with a filter, the selection. *)
Definition search_frames (f : TextSearcher.frame) (language_filter : option str)
  : list TextSearcher.frame :=
  match TextSearcher.filter_given language_filter with
  | Some v =>
      [f; {| TextSearcher.frame_columns := TextSearcher.frame_columns f;
             TextSearcher.language_dtype := TextSearcher.language_dtype f;
             TextSearcher.frame_rows :=
               filter (TextSearcher.language_mask v) (TextSearcher.frame_rows f) |}]
  | None => [f]
  end.

(** Whether the search of one cell of the query table gets past the
    accessor: a missing or blank cell is not searched. *)
Definition cell_ok (self : TextSearcher.searcher) (f : TextSearcher.frame)
  (query_row : list (option str)) (col : str) : bool :=
  match TextSearcher.cell (TextSearcher.columns (TextSearcher.queries self))
          query_row col with
  | None => true
  | Some v =>
      match Py.strip v with
      | [] => true
      | _ :: _ => accessor_ok f (TextSearcher.language_of_column col)
      end
  end.

Definition collected_ok (self : TextSearcher.searcher) (f : TextSearcher.frame)
  : bool :=
  forallb
    (fun query_row =>
       forallb (cell_ok self f query_row)
         (TextSearcher.query_columns (TextSearcher.queries self)))
    (TextSearcher.cells (TextSearcher.queries self)).


(** ** Concrete inputs used below *)

Module Fixtures.

Import TextSearcher.

Definition row (id : str) (lang : str) : dataset_row :=
  {| itemid := id; appno := None; docname := None; doctype := None;
     languageisocode := Some lang; article := None; violation := None;
     year := None |}.

Definition law_of (id : str) (text : str) : law_row :=
  {| law_itemid := id; law_THE_LAW := Some text |}.

Definition one_column (name : str) (terms : list str) : query_table :=
  {| columns := [name]; cells := map (fun t => [Some t]) terms |}.

(** The French scenario: one case and one French query column. *)
Definition french_dataset : list dataset_row := [row "1001" "fre"].
Definition french_law : list law_row :=
  [law_of "1001" "La gene morale et la subsistance des familles."].
Definition french_queries : query_table := one_column "French" ["subsistance" : str].

(** A case whose text has the phrase of the optional-group query. *)
Definition moyens_law : list law_row :=
  [law_of "1001" "Les moyens de subsistance des familles."].
Definition moyens_query : str := "(moyens de)? subsistance".

(** The pattern [r'\b' + query + r'\b'] denotes for [moyens_query] when
    the query is compiled as a regular expression: the optional group
    [(moyens de)?], then the literal [ subsistance], between two [\b]. *)
Definition moyens_regex : Re.regex :=
  Re.Cat Re.Bnd
    (Re.Cat (Re.Cat (Re.Opt (Re.escape "moyens de")) (Re.escape " subsistance"))
       Re.Bnd).

(** Two cases, one English and one French, with the same word. *)
Definition mixed_dataset : list dataset_row := [row "1" "ENG"; row "2" "fre"].
Definition mixed_law : list law_row :=
  [law_of "1" "the destitution of the applicant";
   law_of "2" "la destitution du requerant";
   law_of "3" "a text without a case"].

Definition mixed_corpus : DataFrame :=
  [{| meta := row "1" "ENG";
      THE_LAW := Some (list_ascii_of_string "the destitution of the applicant") |};
   {| meta := row "2" "fre";
      THE_LAW := Some (list_ascii_of_string "la destitution du requerant") |}].

(** The store and the instance [__init__] builds from the mixed tables on
    an empty store. *)
Definition frame_of (d : DataFrame) : frame :=
  {| frame_columns := _columns; language_dtype := Pd.object; frame_rows := d |}.

Definition mixed_heap : heap :=
  [frame_of (merge_left mixed_dataset mixed_law); frame_of mixed_corpus].
Definition mixed_self : searcher :=
  {| df_all := mixed_dataset; law := mixed_law;
     queries := one_column "English" ["destitution" : str];
     dataset := 1 |}.

(** The same term in two columns that are not language columns: every
    case matches twice. *)
Definition twice_self : searcher :=
  {| df_all := mixed_dataset; law := mixed_law;
     queries := {| columns := ["first" : str; "second" : str];
                   cells := [[Some ("destitution" : str);
                              Some ("destitution" : str)]] |};
     dataset := 1 |}.






Definition eng : str := "eng".
Definition FRE : str := "FRE".

Definition run {A : Type} (c : M A) : option A :=
  match c [] with
  | Some (a, _) => Some a
  | None => None
  end.

End Fixtures.

(** * Properties *)

(** ** Runs on concrete inputs *)

Example split_example :
  Py.split " a b  c match" = map list_ascii_of_string ["a"; "b"; "c"; "match"].
Proof. vm_compute. reflexivity. Qed.

Example finditer_example :
  map Re.m_start (Re.finditer (Re.word_pattern "ab") "ab xab ab,ab") = [0; 7; 10].
Proof. vm_compute. reflexivity. Qed.

Example finditer_empty_pattern :
  map Re.m_start (Re.finditer (Re.word_pattern "") "ab c") = [0; 2; 3; 4].
Proof. vm_compute. reflexivity. Qed.

Example slice_negative_bound :
  Py.slice [1; 2; 3; 4; 5] 1 (-1) = [2; 3; 4].
Proof. vm_compute. reflexivity. Qed.

Example get_context_radius1 :
  TextSearcher.get_context "a b c match d e" "match" 1 = "...b c **match**...".
Proof. vm_compute. reflexivity. Qed.

Example get_context_upper_case :
  TextSearcher.get_context "The MATCH, again" "Match" 5 = "The **MATCH,** again".
Proof. vm_compute. reflexivity. Qed.

(** The French scenario of the specification, end to end. *)
Example french_scenario :
  option_map
    (map (fun s => (TextSearcher.s_itemid s, TextSearcher.s_match_count s,
                    TextSearcher.s_combined_context s)))
    (Fixtures.run
       (TextSearcher.bind
          (TextSearcher.__init__ Fixtures.french_dataset Fixtures.french_law
             Fixtures.french_queries None)
          (fun self => TextSearcher.search_all_queries self 10)))
  = Some [(list_ascii_of_string "1001", 1,
           list_ascii_of_string
             "La gene morale et la **subsistance** des familles.")].
Proof. vm_compute. reflexivity. Qed.

(** ** Characters and strings *)

Section PyFacts.

Import Py.

(** A character whose lower-case form is a word character is not
    whitespace. *)
Lemma word_lower_not_space (c : ascii) :
  Re.is_word (lower_char c) = true -> isspace c = false.
Proof.
  destruct c as [b0 b1 b2 b3 b4 b5 b6 b7].
  destruct b0, b1, b2, b3, b4, b5, b6, b7; vm_compute; congruence.
Qed.

Lemma str_eqb_eq (a b : str) : str_eqb a b = true <-> a = b.
Proof.
  unfold str_eqb. destruct (list_eq_dec ascii_dec a b); split; congruence.
Qed.

Lemma str_eqb_refl (a : str) : str_eqb a a = true.
Proof. apply str_eqb_eq. reflexivity. Qed.


Lemma split_nil (s : str) : split s = [] <-> forallb isspace s = true.
Proof.
  induction s as [|c s IH]; simpl.
  - tauto.
  - destruct (isspace c) eqn:Hc; simpl.
    + exact IH.
    + split; [|discriminate].
      destruct s as [|d s']; [discriminate|].
      destruct (isspace d); [discriminate|].
      destruct (split (d :: s')); discriminate.
Qed.

Lemma split_tokens_nonempty (s : str) : Forall (fun w => w <> []) (split s).
Proof.
  induction s as [|c s IH]; simpl.
  - constructor.
  - destruct (isspace c); [exact IH|].
    destruct s as [|d s'].
    + constructor; [discriminate|constructor].
    + destruct (isspace d).
      * constructor; [discriminate|exact IH].
      * destruct (split (d :: s')) as [|t ts].
        -- constructor; [discriminate|constructor].
        -- inversion IH; subst. constructor; [discriminate|assumption].
Qed.


Lemma split_head_not_space (c : ascii) (s : str) :
  isspace c = false -> split (c :: s) <> [].
Proof.
  intros Hc H. apply split_nil in H. simpl in H. rewrite Hc in H. discriminate.
Qed.

(** The number of tokens of [c :: s] from the number of tokens of [s]. *)
Lemma split_cons_length (c : ascii) (s : str) :
  length (split (c :: s)) =
  if isspace c then length (split s)
  else match s with
       | [] => 1
       | d :: _ => if isspace d then S (length (split s)) else length (split s)
       end.
Proof.
  simpl. destruct (isspace c); [reflexivity|].
  destruct s as [|d s']; [reflexivity|].
  destruct (isspace d) eqn:Hd; [reflexivity|].
  pose proof (split_head_not_space d s' Hd) as Hne.
  destruct (split (d :: s')); [congruence|reflexivity].
Qed.

(** A prefix of a text has no more tokens than the text. *)
Lemma split_firstn_le (s : str) :
  forall n, length (split (firstn n s)) <= length (split s).
Proof.
  induction s as [|c s IH]; intros n.
  - rewrite firstn_nil. apply le_n.
  - destruct n as [|n]; [apply Nat.le_0_l|].
    rewrite firstn_cons, !split_cons_length.
    specialize (IH n).
    destruct (isspace c); [exact IH|].
    destruct s as [|d s'].
    + rewrite firstn_nil. apply le_n.
    + destruct n as [|n'].
      * simpl firstn. destruct (isspace d) eqn:Hd; [lia|].
        pose proof (split_head_not_space d s' Hd) as Hne.
        destruct (split (d :: s')); [congruence|simpl; lia].
      * rewrite firstn_cons in *. destruct (isspace d); lia.
Qed.

End PyFacts.

Section JoinFacts.

Import Py.

Lemma join_cons (sep x : str) (l : list str) :
  join sep (x :: l) = x ++ match l with [] => [] | _ :: _ => sep ++ join sep l end.
Proof. destruct l; simpl; [now rewrite app_nil_r|reflexivity]. Qed.

Lemma join_not_nil (sep x : str) (l : list str) :
  x <> [] -> join sep (x :: l) <> [].
Proof.
  intros Hx H. rewrite join_cons in H. apply app_eq_nil in H. tauto.
Qed.







Lemma norm_index_range (len i : Z) :
  (0 <= len -> 0 <= norm_index len i <= len)%Z.
Proof. unfold norm_index. destruct (i <? 0)%Z eqn:E; lia. Qed.


(** Within bounds, a slice is the segment between its two bounds. *)
Lemma slice_in_range {A : Type} (l : list A) (a b : Z) :
  (0 <= a <= Z.of_nat (length l))%Z -> (0 <= b <= Z.of_nat (length l))%Z ->
  slice l a b = firstn (Z.to_nat (b - a)) (skipn (Z.to_nat a) l).
Proof.
  intros Ha Hb. unfold slice, norm_index.
  destruct (a <? 0)%Z eqn:Ea; [lia|]. destruct (b <? 0)%Z eqn:Eb; [lia|].
  now rewrite !Z.min_l by lia.
Qed.

Lemma slice_all {A : Type} (l : list A) :
  slice l 0 (Z.of_nat (length l)) = l.
Proof.
  rewrite slice_in_range by lia. simpl skipn.
  rewrite Z.sub_0_r, Nat2Z.id. apply firstn_all.
Qed.

End JoinFacts.

(** ** The matcher *)

Section ReFacts.

Import Re.

Lemma match_at_any (r : regex) (s : str) (i : nat) :
  match_at r s i true = None <-> ends r s i = [].
Proof.
  unfold match_at. destruct (ends r s i) as [|e l]; simpl; split; congruence.
Qed.

Lemma match_at_some (r : regex) (s : str) (i e : nat) (b : bool) :
  match_at r s i b = Some e -> ends r s i <> [].
Proof.
  unfold match_at. intros H E. rewrite E in H. discriminate.
Qed.

Lemma scan_none (r : regex) (s : str) :
  forall fuel pos,
    scan fuel r s pos = None <->
    (forall i, pos <= i < pos + fuel -> ends r s i = []).
Proof.
  induction fuel as [|fuel IH]; intros pos; simpl.
  - split; [intros _ i Hi; lia|reflexivity].
  - destruct (match_at r s pos true) as [e|] eqn:E.
    + split; [discriminate|]. intros H.
      apply match_at_some in E. destruct E. apply H. lia.
    + rewrite IH. apply match_at_any in E. split; intros H i Hi.
      * destruct (Nat.eq_dec i pos) as [->|Hne]; [exact E|]. apply H. lia.
      * apply H. lia.
Qed.

(** [re.search] finds nothing exactly when no offset of the subject
    starts a match. *)
Lemma search_none (r : regex) (s : str) :
  search r s = None <-> (forall i, i <= length s -> ends r s i = []).
Proof.
  unfold search. rewrite scan_none. split; intros H i Hi; apply H; lia.
Qed.

Lemma finditer_from_In (r : regex) (s : str) (m : match_obj) :
  forall fuel pos b,
    In m (finditer_from fuel r s pos b) ->
    ends r s (m_start m) <> [] /\ m_start m <= length s.
Proof.
  induction fuel as [|fuel IH]; intros pos b; simpl; [contradiction|].
  destruct (length s <? pos) eqn:Hlen; [contradiction|].
  apply Nat.ltb_ge in Hlen.
  destruct (match_at r s pos (negb b)) as [e|] eqn:E.
  - intros [<-|Hin].
    + simpl. split; [eapply match_at_some; eassumption|assumption].
    + destruct (e =? pos); eapply IH; eassumption.
  - apply IH.
Qed.

Lemma finditer_from_finds (r : regex) (s : str) (i : nat) :
  i <= length s -> ends r s i <> [] ->
  forall fuel pos, pos <= i -> i - pos < fuel ->
    finditer_from fuel r s pos false <> [].
Proof.
  intros Hi Hends. induction fuel as [|fuel IH]; intros pos Hpos Hfuel; [lia|].
  simpl. destruct (length s <? pos) eqn:Hlen.
  - apply Nat.ltb_lt in Hlen. lia.
  - simpl negb. destruct (match_at r s pos true) as [e|] eqn:E; [discriminate|].
    apply match_at_any in E.
    assert (pos <> i) by (intros ->; contradiction).
    apply IH; lia.
Qed.

(** [re.finditer] yields no match exactly when [re.search] finds none. *)
Lemma finditer_nil_search (r : regex) (s : str) :
  finditer r s = [] <-> search r s = None.
Proof.
  rewrite search_none. unfold finditer. split.
  - intros H i Hi. destruct (ends r s i) as [|e l] eqn:E; [reflexivity|].
    exfalso. apply (@finditer_from_finds r s i Hi) with (fuel := 2 * S (length s)) (pos := 0).
    + rewrite E. discriminate.
    + lia.
    + lia.
    + exact H.
  - intros H. destruct (finditer_from _ r s 0 false) as [|m l] eqn:E; [reflexivity|].
    exfalso.
    destruct (@finditer_from_In r s m (2 * S (length s)) 0 false) as [Hne Hle].
    + rewrite E. now left.
    + apply Hne, H, Hle.
Qed.

Lemma ends_word_pattern (q s : str) (i : nat) :
  ends (word_pattern q) s i <> [] -> at_boundary s i = true.
Proof.
  unfold word_pattern. simpl. destruct (at_boundary s i); [reflexivity|].
  simpl. congruence.
Qed.

Lemma at_boundary_word (s : str) (i : nat) :
  at_boundary s i = true -> exists c, In c s /\ is_word c = true.
Proof.
  unfold at_boundary, word_at. intros H.
  assert (Hj : exists j, match nth_error s j with
                         | Some c => is_word c
                         | None => false
                         end = true).
  { destruct i as [|j]; simpl in H.
    - exists 0. exact H.
    - destruct (nth_error s j) as [c|] eqn:Ej.
      + destruct (is_word c) eqn:Ec.
        * exists j. now rewrite Ej.
        * exists (S j). exact H.
      + exists (S j). exact H. }
  destruct Hj as [j Hj]. destruct (nth_error s j) as [c|] eqn:Ej; [|discriminate].
  exists c. split; [eapply nth_error_In; eassumption|exact Hj].
Qed.

(** A text in which the word-boundary pattern matches has a word
    character. *)
Lemma match_has_word (q s : str) (m : match_obj) :
  In m (finditer (word_pattern q) s) -> exists c, In c s /\ is_word c = true.
Proof.
  intros H. apply finditer_from_In in H. destruct H as [H _].
  apply ends_word_pattern in H. now apply at_boundary_word in H.
Qed.

End ReFacts.

(** ** Context extraction: [get_context] *)

Section ContextFacts.

Import Py Re TextSearcher.

(** [get_context] is the join of the contexts of the matches; the early
    return on no match gives the same string. *)
Lemma get_context_join (text query : str) (context_words : Z) :
  get_context text query context_words =
  join SEP
    (map (fun m => context_of text (split text) (word_pattern (lower query))
                     context_words (m_start m))
       (finditer (word_pattern (lower query)) (lower text))).
Proof.
  unfold get_context.
  destruct (finditer (word_pattern (lower query)) (lower text)); reflexivity.
Qed.

(** A text with a match has at least one word. *)
Lemma match_has_words (text query : str) (m : match_obj) :
  In m (finditer (word_pattern (lower query)) (lower text)) ->
  split text <> [].
Proof.
  intros H. apply match_has_word in H. destruct H as (c & Hin & Hw).
  unfold lower in Hin. apply in_map_iff in Hin.
  destruct Hin as (c0 & <- & Hin0).
  apply word_lower_not_space in Hw.
  intros Hnil. apply split_nil in Hnil.
  rewrite forallb_forall in Hnil. specialize (Hnil c0 Hin0). congruence.
Qed.

Lemma highlight_not_nil (pattern : regex) (w : str) :
  w <> [] -> highlight pattern w <> [].
Proof.
  unfold highlight. destruct (is_some _); [discriminate|trivial].
Qed.

Lemma start_idx_nonneg (wp cw : Z) : (0 <= start_idx wp cw)%Z.
Proof. unfold start_idx. lia. Qed.

Lemma end_idx_le (words : list str) (wp cw : Z) :
  (end_idx words wp cw <= Z.of_nat (length words))%Z.
Proof. unfold end_idx. lia. Qed.

(** The shape of one context: the highlighted window between the two
    optional ellipses. *)
Lemma context_of_shape (text : str) (words : list str) (pattern : regex)
  (cw : Z) (char_pos : nat) :
  context_of text words pattern cw char_pos =
  (if (0 <? start_idx (word_pos text char_pos) cw)%Z then ELLIPSIS else [])
  ++ join " " (map (highlight pattern) (window text words cw char_pos))
  ++ (if (end_idx words (word_pos text char_pos) cw <? Z.of_nat (length words))%Z
      then ELLIPSIS else []).
Proof.
  unfold context_of.
  destruct (0 <? _)%Z; destruct (_ <? Z.of_nat (length words))%Z;
    rewrite ?app_nil_r, <- ?app_assoc; reflexivity.
Qed.

(** Over a non-empty word sequence no context is the empty string. *)
Lemma context_of_not_nil (text : str) (words : list str) (pattern : regex)
  (cw : Z) (char_pos : nat) :
  words <> [] -> Forall (fun w => w <> []) words ->
  context_of text words pattern cw char_pos <> [].
Proof.
  intros Hne Hall. rewrite context_of_shape.
  destruct (0 <? _)%Z eqn:Hs; [discriminate|].
  destruct (_ <? Z.of_nat (length words))%Z eqn:He.
  - intros H. apply app_eq_nil in H. destruct H as [_ H].
    apply app_eq_nil in H. destruct H as [_ H]. discriminate.
  - simpl app at 1. rewrite app_nil_r.
    apply Z.ltb_ge in Hs, He.
    pose proof (start_idx_nonneg (word_pos text char_pos) cw) as Hs0.
    pose proof (end_idx_le words (word_pos text char_pos) cw) as He0.
    unfold window.
    replace (start_idx (word_pos text char_pos) cw) with 0%Z by lia.
    replace (end_idx words (word_pos text char_pos) cw)
      with (Z.of_nat (length words)) by lia.
    rewrite slice_all.
    destruct words as [|w ws]; [congruence|].
    simpl map. apply join_not_nil, highlight_not_nil.
    now inversion Hall.
Qed.

End ContextFacts.

Section ContextClaims.

Import Py Re TextSearcher.

Lemma has_emphasis_star (s : str) : has_emphasis s -> In "*"%char s.
Proof.
  intros (w & _ & a & b & ->). apply in_or_app. right. now left.
Qed.

(** Highlighting is by token: the phrase ["a b"] matches in the text
    ["a b c"], and the context returned has no emphasised token, because
    no single token of the window matches the two-token phrase. *)
Lemma get_context_phrase_not_emphasised :
  search (word_pattern (lower "a b")) (lower "a b c") <> None /\
  get_context "a b c" "a b" 10 = "a b c" /\
  ~ has_emphasis (get_context "a b c" "a b" 10).
Proof.
  split; [vm_compute; discriminate|]. split; [vm_compute; reflexivity|].
  intros H. apply has_emphasis_star in H. vm_compute in H.
  repeat (destruct H as [H|H]; [discriminate H|]). exact H.
Qed.

(** [get_context] returns the empty string exactly when the pattern of the
    term has no match in the text. *)
Lemma get_context_nil_iff (text term : str) (radius : Z) :
  get_context text term radius = [] <->
  search (word_pattern (lower term)) (lower text) = None.
Proof.
  rewrite <- finditer_nil_search. split.
  - intros H.
    destruct (finditer (word_pattern (lower term)) (lower text)) as [|m ms] eqn:E;
      [reflexivity|exfalso].
    assert (Hm : In m (finditer (word_pattern (lower term)) (lower text)))
      by (rewrite E; now left).
    apply match_has_words in Hm.
    rewrite get_context_join, E in H. simpl map in H. revert H.
    apply join_not_nil, context_of_not_nil;
      [exact Hm|apply split_tokens_nonempty].
  - intros H. unfold get_context. now rewrite H.
Qed.

(** C2, the code at the failing input.  The first half of the claim holds
    for every input: the result is empty exactly when the pattern has no
    match.  The second half fails: in ["a b c match d e"] the one-word term
    ["match"] has a match, and with radius 0 the result is ["...c..."],
    the token before the matched word, with no emphasised token and
    without the term. *)
Theorem get_context_match_without_emphasis :
  (forall text term radius,
     get_context text term radius = [] <->
     search (word_pattern (lower term)) (lower text) = None) /\
  search (word_pattern (lower "match")) (lower "a b c match d e") <> None /\
  get_context "a b c match d e" "match" 0 = "...c..." /\
  ~ has_emphasis (get_context "a b c match d e" "match" 0).
Proof.
  split; [apply get_context_nil_iff|].
  split; [vm_compute; discriminate|]. split; [vm_compute; reflexivity|].
  intros H. apply has_emphasis_star in H. vm_compute in H.
  repeat (destruct H as [H|H]; [discriminate H|]). exact H.
Qed.

(** C5, the code at the failing input: in ["a b c match d e"] the term
    ["match"] occurs once, at offset 6; three tokens precede that offset,
    and the token at index 3 is the matched word; the index the code
    centres the window on is 2, one less, so that with radius 0 the
    context is the word before the match. *)
Theorem word_pos_is_one_less_than_preceding_tokens :
  map m_start (finditer (word_pattern (lower "match")) (lower "a b c match d e"))
    = [6] /\
  length (split (firstn 6 "a b c match d e")) = 3 /\
  nth_error (split "a b c match d e") 3 = Some (list_ascii_of_string "match") /\
  word_pos "a b c match d e" 6 = 2%Z /\
  get_context "a b c match d e" "match" 0 = "...c...".
Proof. repeat split; vm_compute; reflexivity. Qed.

Lemma word_pos_in_range (text term : str) (m : match_obj) :
  In m (finditer (word_pattern (lower term)) (lower text)) ->
  (0 <= word_pos text (m_start m) < Z.of_nat (length (split text)))%Z.
Proof.
  intros Hm. apply match_has_words in Hm.
  pose proof (split_firstn_le text (m_start m)) as Hle.
  unfold word_pos.
  destruct (split text) as [|w ws]; [congruence|]. simpl length in *. lia.
Qed.

(** C6, the code at the failing input.  In ["a b c match d e"] the matched
    word is the token of index 3; with radius 1 the window the code takes
    is the tokens 1 to 3, two words before the matched word and none after
    it, where the claim has at most one word on each side; the ellipses
    follow the window.  With radius 10 the window is the whole text and the
    result is the one the claim gives. *)
Theorem context_window_is_off_centre :
  map m_start (finditer (word_pattern (lower "match")) (lower "a b c match d e"))
    = [6] /\
  nth_error (split "a b c match d e") 3 = Some (list_ascii_of_string "match") /\
  window "a b c match d e" (split "a b c match d e") 1 6
    = map list_ascii_of_string ["b"; "c"; "match"] /\
  get_context "a b c match d e" "match" 1 = "...b c **match**..." /\
  get_context "a b c match d e" "match" 10 = "a b c **match** d e".
Proof. repeat split; vm_compute; reflexivity. Qed.








End ContextClaims.

(** ** The object store *)

Section StoreFacts.

Import TextSearcher.

Lemma nth_error_alloc (h : heap) (f : frame) :
  nth_error (h ++ [f]) (length h) = Some f.
Proof. rewrite nth_error_app2, Nat.sub_diag by apply le_n. reflexivity. Qed.

Lemma nth_error_extend (h t : heap) (l : loc) (f : frame) :
  nth_error h l = Some f -> nth_error (h ++ t) l = Some f.
Proof.
  intros H. rewrite nth_error_app1; [exact H|].
  apply nth_error_Some. congruence.
Qed.

Lemma corpus_of_frame (h : heap) (self : searcher) (d : DataFrame) :
  corpus h self = Some d <->
  exists f, corpus_frame h self = Some f /\ frame_rows f = d.
Proof.
  unfold corpus. destruct (corpus_frame h self) as [f|]; simpl; split.
  - intros H. injection H as <-. now exists f.
  - intros (f' & Hf & <-). injection Hf as ->. reflexivity.
  - discriminate.
  - intros (f' & Hf & _). discriminate.
Qed.

(** [search_text] on a store in which the corpus is allocated: it raises
    when the accessor does, and otherwise returns the match records of the
    query over the corpus; the final store is the initial one followed by
    the frames it allocated. *)
Lemma search_text_frame (self : searcher) (query_word : str)
  (language_filter : option str) (context_words : Z) (h : heap) (f : frame) :
  corpus_frame h self = Some f ->
  search_text self query_word language_filter context_words h
  = if accessor_ok f language_filter
    then Some (matches_of (frame_rows f) query_word language_filter
                 context_words,
               h ++ search_frames f language_filter)
    else None.
Proof.
  unfold corpus_frame. intros Hf.
  unfold search_text, matches_of, searched_rows, accessor_ok, search_frames,
    bind, df_copy, df_select, str_lower_eq, iterrows, bind, read, alloc, ret,
    raise.
  rewrite Hf.
  destruct (filter_given language_filter) as [v|].
  - rewrite nth_error_alloc.
    destruct (language_dtype f) eqn:Ed; [|reflexivity].
    rewrite !nth_error_alloc. cbn [frame_rows]. rewrite ?Ed.
    now rewrite <- app_assoc.
  - rewrite nth_error_alloc. reflexivity.
Qed.

Lemma search_text_dangling (self : searcher) (query_word : str)
  (language_filter : option str) (context_words : Z) (h : heap) :
  corpus_frame h self = None ->
  search_text self query_word language_filter context_words h = None.
Proof.
  unfold corpus_frame. intros Hf.
  unfold search_text, bind, df_copy, bind, read. now rewrite Hf.
Qed.

(** A call of [search_text] that returns. *)
Lemma search_text_returns (self : searcher) (query_word : str)
  (language_filter : option str) (context_words : Z) (h h' : heap)
  (res : list result) :
  search_text self query_word language_filter context_words h = Some (res, h') ->
  exists f,
    corpus_frame h self = Some f /\
    accessor_ok f language_filter = true /\
    res = matches_of (frame_rows f) query_word language_filter context_words /\
    h' = h ++ search_frames f language_filter.
Proof.
  intros H. destruct (corpus_frame h self) as [f|] eqn:Hf.
  - rewrite (search_text_frame _ _ _ _ _ f Hf) in H.
    destruct (accessor_ok f language_filter) eqn:Hok; [|discriminate].
    injection H as <- <-. exists f. repeat split. exact Hok.
  - rewrite search_text_dangling in H by exact Hf. discriminate.
Qed.

Lemma search_text_some (self : searcher) (query_word : str)
  (language_filter : option str) (context_words : Z) (h h' : heap)
  (res : list result) :
  search_text self query_word language_filter context_words h = Some (res, h') ->
  exists d,
    corpus h self = Some d /\
    res = matches_of d query_word language_filter context_words.
Proof.
  intros H. apply search_text_returns in H.
  destruct H as (f & Hf & _ & -> & _).
  exists (frame_rows f). split; [|reflexivity].
  apply corpus_of_frame. now exists f.
Qed.

End StoreFacts.

(** ** Matching: [search_text] *)

Section SearchClaims.

Import Py Re TextSearcher.

(** C10: [search_text] does not change the corpus.  A call that returns
    leaves the frame object the searcher's dataset denotes as it was, and
    every other frame object of the store too; and a second call with the
    same arguments, on the store the first one leaves, returns the same
    match records. *)
Theorem search_text_preserves_corpus (self : searcher) (query_word : str)
  (language_filter : option str) (context_words : Z) (h h' : heap)
  (res : list result) :
  search_text self query_word language_filter context_words h
    = Some (res, h') ->
  corpus_frame h' self = corpus_frame h self /\
  (forall l x, nth_error h l = Some x -> nth_error h' l = Some x) /\
  exists h'',
    search_text self query_word language_filter context_words h'
      = Some (res, h'').
Proof.
  intros Hrun. apply search_text_returns in Hrun.
  destruct Hrun as (f & Hf & Hok & -> & ->).
  assert (Hf' : corpus_frame (h ++ search_frames f language_filter) self
                = Some f) by (apply nth_error_extend; exact Hf).
  split; [congruence|]. split.
  - intros l x Hl. now apply nth_error_extend.
  - eexists. rewrite (search_text_frame _ _ _ _ _ f Hf'), Hok. reflexivity.
Qed.

(** C8: with a non-empty language filter, every match record comes from
    a corpus row whose language code equals the filter once both are
    lower-cased, and carries that row's language code. *)
Theorem search_text_language_filter (self : searcher) (query_word : str)
  (language_filter : str) (context_words : Z) (h h' : heap) (d : DataFrame)
  (res : list result) :
  language_filter <> [] ->
  corpus h self = Some d ->
  search_text self query_word (Some language_filter) context_words h
    = Some (res, h') ->
  forall r, In r res ->
    exists row l,
      In row d /\
      languageisocode (meta row) = Some l /\
      lower l = lower language_filter /\
      r_language r = Some l /\
      r_itemid r = itemid (meta row).
Proof.
  intros Hne Hd Hrun r Hr.
  apply search_text_some in Hrun. destruct Hrun as (d' & Hd' & ->).
  assert (d' = d) by congruence. subst d'.
  unfold matches_of, searched_rows in Hr.
  destruct language_filter as [|c f]; [congruence|]. simpl filter_given in Hr.
  apply in_flat_map in Hr. destruct Hr as (row & Hrow & Hr).
  apply filter_In in Hrow. destruct Hrow as [Hin Hmask].
  unfold language_mask in Hmask.
  destruct (languageisocode (meta row)) as [l|] eqn:Hl; [|discriminate].
  apply str_eqb_eq in Hmask.
  unfold search_row in Hr.
  destruct (THE_LAW row) as [fulltext|]; [|contradiction].
  destruct (is_some _); [|contradiction].
  destruct Hr as [<-|[]]. exists row, l. simpl. auto.
Qed.

Lemma search_text_preserves_corpus_witness :
  exists res h' h'',
    search_text Fixtures.mixed_self "destitution" (Some Fixtures.eng) 2
      Fixtures.mixed_heap = Some (res, h') /\
    map r_itemid res = [list_ascii_of_string "1"] /\
    corpus_frame h' Fixtures.mixed_self
      = corpus_frame Fixtures.mixed_heap Fixtures.mixed_self /\
    search_text Fixtures.mixed_self "destitution" (Some Fixtures.eng) 2 h'
      = Some (res, h'').
Proof.
  destruct (search_text Fixtures.mixed_self "destitution" (Some Fixtures.eng) 2
              Fixtures.mixed_heap) as [[res h']|] eqn:E;
    [|vm_compute in E; discriminate E].
  destruct (search_text_preserves_corpus Fixtures.mixed_self "destitution"
              (Some Fixtures.eng) 2 Fixtures.mixed_heap h' res E)
    as (Hsame & _ & h'' & Hagain).
  exists res, h', h''. split; [reflexivity|].
  split; [|split; [exact Hsame|exact Hagain]].
  vm_compute in E. injection E as <- _. vm_compute. reflexivity.
Defined.

Lemma search_text_language_filter_witness :
  map r_itemid
    (matches_of Fixtures.mixed_corpus "destitution" (Some Fixtures.eng) 2)
    = [list_ascii_of_string "1"] /\
  forall r,
    In r (matches_of Fixtures.mixed_corpus "destitution" (Some Fixtures.eng) 2) ->
    exists row l,
      In row Fixtures.mixed_corpus /\
      languageisocode (meta row) = Some l /\
      lower l = lower Fixtures.eng /\
      r_language r = Some l /\
      r_itemid r = itemid (meta row).
Proof.
  assert (Hne : Fixtures.eng <> []) by discriminate.
  assert (Hd : corpus Fixtures.mixed_heap Fixtures.mixed_self
               = Some Fixtures.mixed_corpus) by (vm_compute; reflexivity).
  assert (Hf : corpus_frame Fixtures.mixed_heap Fixtures.mixed_self
               = Some (Fixtures.frame_of Fixtures.mixed_corpus))
    by (vm_compute; reflexivity).
  split; [vm_compute; reflexivity|].
  pose proof (search_text_frame Fixtures.mixed_self "destitution"
                (Some Fixtures.eng) 2 Fixtures.mixed_heap _ Hf) as Ht.
  exact (search_text_language_filter Fixtures.mixed_self "destitution"
           Fixtures.eng 2 Fixtures.mixed_heap _
           Fixtures.mixed_corpus _ Hne Hd Ht).
Defined.

(** C3, the code at the failing input: the text has the phrase
    ["moyens de subsistance"], which the pattern of the optional-group
    query matches as a regular expression; [search_text] escapes the
    query, looks for its characters literally, and returns no record. *)
Theorem escaped_query_is_searched_literally :
  search Fixtures.moyens_regex
    (lower "Les moyens de subsistance des familles.")
    = Some {| m_start := 4; m_end := 25 |} /\
  search (word_pattern (lower Fixtures.moyens_query))
    (lower "Les moyens de subsistance des familles.") = None /\
  Fixtures.run
    (self <- __init__ Fixtures.french_dataset Fixtures.moyens_law
               Fixtures.french_queries None ;;
     search_text self Fixtures.moyens_query (Some Fixtures.FRE) 10)
    = Some [].
Proof. repeat split; vm_compute; reflexivity. Qed.

End SearchClaims.

(** ** Aggregation: [search_all_queries] *)

Section AggregationFacts.

Import Py TextSearcher.

(** A loop over bodies each of which either raises or returns a value that
    does not depend on the store, only allocates and keeps an invariant of
    the store: it raises when a body does, and otherwise returns the values
    in order, only allocates and keeps the invariant. *)
Lemma for_each_frame {A B : Type} (P : heap -> Prop) (ok : A -> bool)
  (g : A -> list B) (l : list A) (body : A -> M (list B)) :
  (forall x h, P h ->
     if ok x
     then exists t, body x h = Some (g x, h ++ t) /\ P (h ++ t)
     else body x h = None) ->
  forall h, P h ->
    if forallb ok l
    then exists t, for_each l body h = Some (flat_map g l, h ++ t) /\ P (h ++ t)
    else for_each l body h = None.
Proof.
  intros Hbody. induction l as [|x l IH]; intros h Hh.
  - exists []. rewrite app_nil_r. split; [reflexivity|exact Hh].
  - cbn [forallb for_each flat_map]. unfold bind.
    specialize (Hbody x h Hh). destruct (ok x); cbn [andb].
    + destruct Hbody as (t & Hr & Hh'). rewrite Hr.
      specialize (IH (h ++ t) Hh'). destruct (forallb ok l).
      * destruct IH as (t' & Hrs & Hh''). rewrite Hrs.
        exists (t ++ t'). rewrite app_assoc. split; [reflexivity|exact Hh''].
      * now rewrite IH.
    + now rewrite Hbody.
Qed.

Lemma search_cell_frame (self : searcher) (cw : Z) (f : frame)
  (query_row : list (option str)) (col : str) (h : heap) :
  corpus_frame h self = Some f ->
  if cell_ok self f query_row col
  then exists t,
         search_cell self cw query_row col h
           = Some (cell_matches self (frame_rows f) cw query_row col, h ++ t) /\
         corpus_frame (h ++ t) self = Some f
  else search_cell self cw query_row col h = None.
Proof.
  intros Hf. unfold search_cell, cell_ok, cell_matches.
  destruct (cell _ query_row col) as [v|].
  - destruct (strip v) as [|c q] eqn:Hq.
    + exists []. rewrite app_nil_r. split; [reflexivity|exact Hf].
    + unfold bind.
      rewrite (search_text_frame self (c :: q) (language_of_column col) cw h f Hf).
      destruct (accessor_ok f (language_of_column col)); [|reflexivity].
      eexists. split; [reflexivity|]. apply nth_error_extend. exact Hf.
  - exists []. rewrite app_nil_r. split; [reflexivity|exact Hf].
Qed.

(** The collection loops on a store in which the corpus is allocated: they
    raise when the search of a cell does, and otherwise return the match
    records of the query table over the corpus and leave the corpus as it
    was. *)
Lemma collect_results_frame (self : searcher) (cw : Z) (f : frame) (h : heap) :
  corpus_frame h self = Some f ->
  if collected_ok self f
  then exists t,
         collect_results self cw h
           = Some (collected self (frame_rows f) cw, h ++ t) /\
         corpus_frame (h ++ t) self = Some f
  else collect_results self cw h = None.
Proof.
  intros Hf. unfold collect_results, collected, collected_ok.
  apply (for_each_frame (fun h => corpus_frame h self = Some f)); [|exact Hf].
  intros query_row h0 Hf0.
  apply (for_each_frame (fun h => corpus_frame h self = Some f)); [|exact Hf0].
  intros col h1 Hf1. apply search_cell_frame. exact Hf1.
Qed.

(** A run of the collection loops that returns. *)
Lemma collect_results_returns (self : searcher) (cw : Z) (f : frame)
  (h h' : heap) (all : list result) :
  corpus_frame h self = Some f ->
  collect_results self cw h = Some (all, h') ->
  collected_ok self f = true /\
  all = collected self (frame_rows f) cw /\
  (exists t, h' = h ++ t) /\
  corpus_frame h' self = Some f.
Proof.
  intros Hf Hrun. pose proof (collect_results_frame self cw f h Hf) as H.
  destruct (collected_ok self f).
  - destruct H as (t & Ht & Hf'). rewrite Ht in Hrun.
    injection Hrun as <- <-. repeat split; [now exists t|exact Hf'].
  - congruence.
Qed.

Lemma language_of_column_code (col : str) :
  language_of_column col = Some (list_ascii_of_string "eng") \/
  language_of_column col = Some (list_ascii_of_string "fre") \/
  language_of_column col = None.
Proof.
  unfold language_of_column.
  destruct (mem (lower col) _); [now left|].
  destruct (mem (lower col) _); [right; now left|right; now right].
Qed.

Lemma search_all_queries_collect (self : searcher) (cw : Z) (h h' : heap)
  (all : list result) :
  collect_results self cw h = Some (all, h') ->
  search_all_queries self cw h = Some (aggregate all, h').
Proof.
  intros H. unfold search_all_queries, bind. rewrite H. reflexivity.
Qed.

Lemma key_eqb_eq (a b : key) : key_eqb a b = true <-> a = b.
Proof.
  destruct a as [a1 a2], b as [b1 b2]. unfold key_eqb. simpl.
  rewrite andb_true_iff, !str_eqb_eq. split; [intros [-> ->]|intros [= -> ->]]; auto.
Qed.

Lemma distinct_In (l : list key) (k : key) : In k (distinct l) <-> In k l.
Proof.
  induction l as [|x l IH]; [simpl; tauto|].
  cbn [distinct In]. rewrite filter_In, IH. split.
  - intros [H|[H _]]; auto.
  - intros [H|H]; [now left|].
    destruct (key_eqb k x) eqn:E.
    + left. symmetry. now apply key_eqb_eq.
    + right. split; [exact H|reflexivity].
Qed.

Lemma distinct_NoDup (l : list key) : NoDup (distinct l).
Proof.
  induction l as [|x l IH]; cbn [distinct]; constructor.
  - rewrite filter_In. intros [_ H]. cbv beta in H.
    rewrite (proj2 (key_eqb_eq x x) eq_refl) in H. discriminate.
  - apply NoDup_filter. exact IH.
Qed.

Lemma insert_key_In (k x : key) (l : list key) :
  In x (insert_key k l) <-> x = k \/ In x l.
Proof.
  induction l as [|y l IH]; simpl.
  - intuition.
  - destruct (key_leb k y); simpl; [intuition|]. rewrite IH. intuition.
Qed.

Lemma insert_key_NoDup (k : key) (l : list key) :
  ~ In k l -> NoDup l -> NoDup (insert_key k l).
Proof.
  induction l as [|y l IH]; simpl; intros Hk Hl.
  - constructor; [tauto|constructor].
  - destruct (key_leb k y).
    + constructor; [exact Hk|exact Hl].
    + inversion Hl; subst. constructor.
      * rewrite insert_key_In. intros [->|H]; tauto.
      * apply IH; tauto.
Qed.

Lemma sort_keys_In (l : list key) (x : key) : In x (sort_keys l) <-> In x l.
Proof.
  induction l as [|k l IH]; simpl; [tauto|].
  rewrite insert_key_In, IH. intuition.
Qed.

Lemma sort_keys_NoDup (l : list key) : NoDup l -> NoDup (sort_keys l).
Proof.
  induction 1 as [|k l Hk Hl IH]; simpl; [constructor|].
  apply insert_key_NoDup; [|exact IH]. now rewrite sort_keys_In.
Qed.

(** The keys of the groups: every key of a row, once. *)
Lemma group_keys_In (rs : list result) (k : key) :
  In k (sort_keys (distinct (map key_of rs))) <-> In k (map key_of rs).
Proof. now rewrite sort_keys_In, distinct_In. Qed.



(** A summary is the summary of the group of its key. *)
Lemma aggregate_In (all : list result) (s : summary) :
  In s (aggregate all) ->
  In s (summarise
          (summary_key s,
           filter (fun r => key_eqb (key_of r) (summary_key s)) all)).
Proof.
  intros H.
  assert (Hg : In s (flat_map summarise (groupby all)))
    by (destruct all; [contradiction|exact H]).
  clear H. unfold groupby in Hg. apply in_flat_map in Hg.
  destruct Hg as (g & Hg & Hs). apply in_map_iff in Hg.
  destruct Hg as (k & <- & _).
  assert (Hk : summary_key s = k).
  { unfold summarise in Hs. cbn [snd fst] in Hs.
    destruct (filter (fun r => key_eqb (key_of r) k) all); [contradiction|].
    destruct Hs as [<-|[]]. unfold summary_key. cbn. now destruct k. }
  rewrite Hk. exact Hs.
Qed.

End AggregationFacts.

Section AggregationClaims.

Import Py TextSearcher.










End AggregationClaims.

(** ** Corpus assembly: [__init__] *)

Section AssemblyClaims.

Import Py TextSearcher.

(** A merged row is a dataset row; its text, when present, is the text of
    a law row with the same identifier. *)
Lemma merge_left_In (ds : list dataset_row) (lw : list law_row) (r : case_row) :
  In r (merge_left ds lw) ->
  In (meta r) ds /\
  (THE_LAW r = None \/
   exists lr, In lr lw /\ law_itemid lr = itemid (meta r)
              /\ THE_LAW r = law_THE_LAW lr).
Proof.
  unfold merge_left. intros H. apply in_flat_map in H.
  destruct H as (l & Hl & Hr).
  destruct (filter (fun r => str_eqb (law_itemid r) (itemid l)) lw)
    as [|lr0 lrs] eqn:E.
  - destruct Hr as [<-|[]]. simpl. auto.
  - apply in_map_iff in Hr. destruct Hr as (lr & <- & Hlr). simpl.
    split; [exact Hl|]. right. exists lr.
    rewrite <- E in Hlr. apply filter_In in Hlr. destruct Hlr as [Hin Heq].
    apply str_eqb_eq in Heq. auto.
Qed.

Lemma update_alloc (h : heap) (f g : frame) :
  update (h ++ [f]) (length h) g = h ++ [g].
Proof. induction h as [|x h IH]; cbn; [reflexivity|now rewrite IH]. Qed.

Lemma init_run (ds : list dataset_row) (lw : list law_row) (q : query_table)
  (rows : option nat) (h : heap) :
  let merged := {| frame_columns := _columns;
                   language_dtype := Pd.infer_dtype (map languageisocode ds);
                   frame_rows := merge_left ds (read_law lw rows) |} in
  let d := {| frame_columns := map strip _columns;
              language_dtype := Pd.infer_dtype (map languageisocode ds);
              frame_rows := filter (fun r => negb (isna (THE_LAW r)))
                              (merge_left ds (read_law lw rows)) |} in
  exists self,
    __init__ ds lw q rows h = Some (self, h ++ [merged; d]) /\
    dataset self = S (length h).
Proof.
  intros merged d.
  unfold __init__, bind, df_select, strip_header, bind, read, write, alloc, ret.
  rewrite !nth_error_alloc. cbn [frame_columns language_dtype frame_rows].
  fold merged. rewrite update_alloc. fold d.
  eexists. split.
  - rewrite <- app_assoc. reflexivity.
  - cbn [dataset]. rewrite length_app. cbn [length]. lia.
Qed.

Lemma init_frame (ds : list dataset_row) (lw : list law_row) (q : query_table)
  (rows : option nat) (h : heap) :
  let d := {| frame_columns := map strip _columns;
              language_dtype := Pd.infer_dtype (map languageisocode ds);
              frame_rows := filter (fun r => negb (isna (THE_LAW r)))
                              (merge_left ds (read_law lw rows)) |} in
  exists self h',
    __init__ ds lw q rows h = Some (self, h') /\
    corpus_frame h' self = Some d.
Proof.
  intros d. destruct (init_run ds lw q rows h) as (self & Hrun & Hloc).
  fold d in Hrun. eexists self, _. split; [exact Hrun|].
  unfold corpus_frame. rewrite Hloc.
  match goal with
  | |- nth_error (h ++ [?m; d]) _ = _ =>
      replace (h ++ [m; d]) with ((h ++ [m]) ++ [d])
        by (now rewrite <- app_assoc);
      replace (S (length h)) with (length (h ++ [m]))
        by (rewrite length_app; cbn [length]; lia)
  end.
  apply nth_error_alloc.
Qed.

(** C4: [__init__] returns an instance whose corpus is the merged table
    restricted to the rows with a text: every row of the corpus has a
    text; an identifier that the dataset or the law table lacks is the
    identifier of no corpus row; and the corpus is the same after any
    call of [search_text] or [search_all_queries]. *)
Theorem corpus_rows_have_text (ds : list dataset_row) (lw : list law_row)
  (q : query_table) (rows : option nat) (h : heap) :
  exists self h' d,
    __init__ ds lw q rows h = Some (self, h') /\
    corpus h' self = Some d /\
    (forall r, In r d -> THE_LAW r <> None) /\
    (forall id,
       ~ In id (map itemid ds) \/ ~ In id (map law_itemid (read_law lw rows)) ->
       ~ In id (map (fun r => itemid (meta r)) d)) /\
    (forall query_word language_filter cw res h'',
       search_text self query_word language_filter cw h' = Some (res, h'') ->
       corpus h'' self = Some d) /\
    (forall cw res h'',
       search_all_queries self cw h' = Some (res, h'') ->
       corpus h'' self = Some d).
Proof.
  destruct (init_frame ds lw q rows h) as (self & h' & Hrun & Hf).
  set (merged := merge_left ds (read_law lw rows)) in *.
  set (d := filter (fun r => negb (isna (THE_LAW r))) merged) in *.
  assert (Hd : corpus h' self = Some d) by (unfold corpus; now rewrite Hf).
  exists self, h', d.
  split; [exact Hrun|]. split; [exact Hd|]. split; [|split; [|split]].
  - intros r Hr. apply filter_In in Hr. destruct Hr as [_ Hr].
    destruct (THE_LAW r); [discriminate|discriminate Hr].
  - intros id Hid Hin. apply in_map_iff in Hin.
    destruct Hin as (r & <- & Hr). apply filter_In in Hr.
    destruct Hr as [Hr Htext]. apply merge_left_In in Hr.
    destruct Hr as [Hmeta Hlaw]. destruct Hid as [Hid|Hid].
    + apply Hid. apply in_map. exact Hmeta.
    + destruct Hlaw as [Hnone|(lr & Hlr & Heq & _)].
      * rewrite Hnone in Htext. discriminate.
      * apply Hid. rewrite <- Heq. apply in_map. exact Hlr.
  - intros query_word language_filter cw res h'' Hs.
    apply search_text_returns in Hs.
    destruct Hs as (f & Hf' & _ & _ & ->).
    unfold corpus. rewrite Hf in Hf'. injection Hf' as <-.
    unfold corpus_frame in *. now rewrite (nth_error_extend _ _ _ _ Hf).
  - intros cw res h'' Hs. unfold search_all_queries, bind in Hs.
    destruct (collect_results self cw h') as [[all h1]|] eqn:Hc;
      [|discriminate].
    injection Hs as _ <-.
    apply (collect_results_returns self cw _ h' h1 all Hf) in Hc.
    destruct Hc as (_ & _ & _ & Hf1). unfold corpus. now rewrite Hf1.
Qed.

(** The store and the instance of the mixed tables are those that
    [__init__] builds; the law row of identifier 3, which the dataset
    lacks, gives no corpus row. *)
Example init_mixed :
  __init__ Fixtures.mixed_dataset Fixtures.mixed_law
    (Fixtures.one_column "English" [list_ascii_of_string "destitution"]) None []
  = Some (Fixtures.mixed_self, Fixtures.mixed_heap).
Proof. vm_compute. reflexivity. Qed.

End AssemblyClaims.

(** * Further properties of the code *)

(** ** What the escaped word-boundary pattern matches *)

Section PatternFacts.

Import Py Re.

Lemma skipn_nth_error_some {A : Type} (s : list A) (i : nat) (d : A) :
  nth_error s i = Some d -> skipn i s = d :: skipn (S i) s.
Proof.
  revert i. induction s as [|x s IH]; intros [|i] H; try discriminate.
  - injection H as ->. reflexivity.
  - simpl in H. rewrite (skipn_cons i x s). rewrite (IH i H). reflexivity.
Qed.

Lemma skipn_nth_error_none {A : Type} (s : list A) (i : nat) :
  nth_error s i = None -> skipn i s = [].
Proof.
  intros H. apply skipn_all2. now apply nth_error_None.
Qed.

(** The escaped query matches at an offset exactly when its characters
    stand there, and the match ends right after them. *)
Lemma ends_escape (q s : str) :
  forall i e,
    In e (ends (escape q) s i) <->
    e = i + length q /\ firstn (length q) (skipn i s) = q.
Proof.
  induction q as [|c q IH]; intros i e.
  - simpl. rewrite Nat.add_0_r. intuition.
  - cbn [escape ends]. rewrite in_flat_map. split.
    + intros (j & Hj & He).
      destruct (nth_error s i) as [d|] eqn:Ed; [|contradiction].
      destruct (Ascii.eqb c d) eqn:Ecd; [|contradiction].
      destruct Hj as [<-|[]]. apply Ascii.eqb_eq in Ecd. subst d.
      apply IH in He. destruct He as [-> Hq].
      rewrite (skipn_nth_error_some s i c Ed). cbn [length firstn].
      split; [lia|]. now rewrite Hq.
    + intros [-> Hq]. simpl length in Hq.
      destruct (nth_error s i) as [d|] eqn:Ed.
      * rewrite (skipn_nth_error_some s i d Ed) in Hq.
        cbn [firstn] in Hq. injection Hq as -> Hq. exists (S i).
        rewrite Ascii.eqb_refl. split; [now left|].
        apply IH. split; [cbn [length]; lia|exact Hq].
      * rewrite (skipn_nth_error_none s i Ed) in Hq. discriminate.
Qed.

(** The pattern of a query matches at an offset exactly when the query
    stands there between two word boundaries. *)
Lemma ends_word_pattern_iff (q s : str) (i e : nat) :
  In e (ends (word_pattern q) s i) <->
  at_boundary s i = true /\ firstn (length q) (skipn i s) = q /\
  e = i + length q /\ at_boundary s e = true.
Proof.
  unfold word_pattern. cbn [ends]. rewrite in_flat_map. split.
  - intros (j & Hj & He). destruct (at_boundary s i) eqn:Eb; [|contradiction].
    destruct Hj as [<-|[]]. apply in_flat_map in He.
    destruct He as (k & Hk & He). apply ends_escape in Hk.
    destruct Hk as [-> Hq]. destruct (at_boundary s (i + length q)) eqn:Ee;
      [|contradiction].
    destruct He as [<-|[]]. auto.
  - intros (Hb & Hq & -> & He). exists i. rewrite Hb. split; [now left|].
    apply in_flat_map. exists (i + length q). split.
    + apply ends_escape. auto.
    + rewrite He. now left.
Qed.

Lemma finditer_from_In_ends (r : regex) (s : str) (m : match_obj) :
  forall fuel pos b,
    In m (finditer_from fuel r s pos b) ->
    In (m_end m) (ends r s (m_start m)).
Proof.
  induction fuel as [|fuel IH]; intros pos b; simpl; [contradiction|].
  destruct (length s <? pos); [contradiction|].
  destruct (match_at r s pos (negb b)) as [e|] eqn:E.
  - intros [<-|Hin].
    + simpl. unfold match_at in E. apply find_some in E. tauto.
    + destruct (e =? pos); eapply IH; eassumption.
  - apply IH.
Qed.

End PatternFacts.

Section PatternClaims.

Import Py Re TextSearcher.

Lemma at_boundary_in_range (s : str) (i : nat) :
  at_boundary s i = true -> i <= length s.
Proof.
  unfold at_boundary, word_at. intros H.
  destruct (Nat.le_gt_cases i (length s)) as [Hle|Hgt]; [exact Hle|exfalso].
  assert (E1 : nth_error s i = None) by (apply nth_error_None; lia).
  rewrite E1 in H. destruct i as [|j]; [discriminate|].
  assert (E2 : nth_error s j = None) by (apply nth_error_None; lia).
  rewrite E2 in H. discriminate.
Qed.

Lemma search_word_pattern_iff (q s : str) :
  search (word_pattern q) s <> None <-> exists i, occurs_as_word q s i.
Proof.
  split.
  - intros H. destruct (search (word_pattern q) s) as [m|] eqn:E; [|congruence].
    assert (Hne : ~ (forall i, i <= length s -> ends (word_pattern q) s i = [])).
    { intros Hall. apply search_none in Hall. congruence. }
    assert (Hex : exists i, i <= length s /\ ends (word_pattern q) s i <> []).
    { clear - Hne. revert Hne. generalize (length s) as n.
      induction n as [|n IH]; intros Hne.
      - exists 0. split; [lia|]. intros E0. apply Hne. intros i Hi.
        replace i with 0 by lia. exact E0.
      - destruct (ends (word_pattern q) s (S n)) as [|e l] eqn:En.
        + destruct IH as (i & Hi & Hends).
          * intros Hall. apply Hne. intros i Hi.
            destruct (Nat.eq_dec i (S n)) as [->|Hd]; [exact En|].
            apply Hall. lia.
          * exists i. split; [lia|exact Hends].
        + exists (S n). split; [lia|]. rewrite En. discriminate. }
    destruct Hex as (i & _ & Hends).
    destruct (ends (word_pattern q) s i) as [|e l] eqn:Ee; [congruence|].
    assert (Hin : In e (ends (word_pattern q) s i)) by (rewrite Ee; now left).
    apply ends_word_pattern_iff in Hin. destruct Hin as (Hb & Hq & -> & He).
    exists i. repeat split; assumption.
  - intros (i & Hb & Hq & He) Hnone.
    rewrite search_none in Hnone.
    assert (Hin : In (i + length q) (ends (word_pattern q) s i)).
    { apply ends_word_pattern_iff. auto. }
    rewrite (Hnone i (at_boundary_in_range s i Hb)) in Hin. contradiction.
Qed.

(** X1 (word-boundary pattern).  The pattern [\b + re.escape(q) + \b] that
    [get_context] and [search_text] build finds a match in a string exactly
    when the literal characters of [q] stand somewhere in it between two
    word boundaries, and every match that [finditer] reports is such an
    occurrence: it starts inside the string, spans exactly the characters
    of [q], and has a word boundary at both ends. *)
Theorem word_pattern_matches_whole_word_occurrences (q s : str) :
  (search (word_pattern q) s <> None <-> exists i, occurs_as_word q s i) /\
  Forall (fun m =>
            occurs_as_word q s (m_start m) /\
            m_end m = m_start m + length q /\
            m_end m <= length s)
    (finditer (word_pattern q) s).
Proof.
  split; [apply search_word_pattern_iff|].
  apply Forall_forall. intros m Hm. unfold finditer in Hm.
  apply finditer_from_In_ends in Hm. apply ends_word_pattern_iff in Hm.
  destruct Hm as (Hb & Hq & He & Hbe). rewrite He.
  repeat split; try assumption.
  - now rewrite <- He.
  - rewrite <- He. apply at_boundary_in_range. exact Hbe.
Qed.

End PatternClaims.

(** ** The records of [search_text] *)

Section RecordFacts.

Import Py Re TextSearcher.

Lemma get_context_not_nil (text query : str) (cw : Z) :
  search (word_pattern (lower query)) (lower text) <> None ->
  get_context text query cw <> [].
Proof.
  intros Hs. rewrite <- finditer_nil_search in Hs.
  destruct (finditer (word_pattern (lower query)) (lower text)) as [|m ms] eqn:E;
    [congruence|].
  assert (Hm : In m (finditer (word_pattern (lower query)) (lower text)))
    by (rewrite E; now left).
  apply match_has_words in Hm.
  rewrite get_context_join, E. simpl map.
  apply join_not_nil, context_of_not_nil;
    [exact Hm|apply split_tokens_nonempty].
Qed.

Lemma search_row_In (q : str) (cw : Z) (row : case_row) (r : result) :
  In r (search_row q cw row) <->
  exists t,
    THE_LAW row = Some t /\
    search (word_pattern (lower q)) (lower t) <> None /\
    r = {| r_itemid := itemid (meta row);
           r_language := languageisocode (meta row);
           r_query_word := q;
           r_context := get_context t q cw;
           r_THE_LAW := t;
           r_query_language := None |}.
Proof.
  unfold search_row. destruct (THE_LAW row) as [t|].
  - destruct (search (word_pattern (lower q)) (lower t)) as [m|] eqn:E;
      simpl; split.
    + intros [<-|[]]. exists t. split; [reflexivity|].
      split; [congruence|reflexivity].
    + intros (t' & Ht & _ & ->). injection Ht as <-. now left.
    + contradiction.
    + intros (t' & Ht & Hs & _). injection Ht as <-. congruence.
  - simpl. split; [contradiction|]. intros (t & Ht & _). discriminate.
Qed.

Lemma search_row_length (q : str) (cw : Z) (row : case_row) :
  length (search_row q cw row) <= 1.
Proof.
  unfold search_row. destruct (THE_LAW row) as [t|]; [|simpl; lia].
  destruct (is_some _); simpl; lia.
Qed.

Lemma flat_map_length_le {A B : Type} (f : A -> list B) (l : list A) :
  (forall x, length (f x) <= 1) -> length (flat_map f l) <= length l.
Proof.
  intros Hf. induction l as [|x l IH]; simpl; [lia|].
  rewrite length_app. specialize (Hf x). lia.
Qed.

Lemma searched_rows_incl (d : DataFrame) (lf : option str) (row : case_row) :
  In row (searched_rows d lf) -> In row d.
Proof.
  unfold searched_rows. destruct (filter_given lf); [|trivial].
  intros H. apply filter_In in H. tauto.
Qed.

Lemma searched_rows_length (d : DataFrame) (lf : option str) :
  length (searched_rows d lf) <= length d.
Proof.
  unfold searched_rows. destruct (filter_given lf); [|lia].
  apply filter_length_le.
Qed.

Lemma matches_of_In (d : DataFrame) (q : str) (lf : option str) (cw : Z)
  (r : result) :
  In r (matches_of d q lf cw) <->
  exists row t,
    In row (searched_rows d lf) /\
    THE_LAW row = Some t /\
    search (word_pattern (lower q)) (lower t) <> None /\
    r = {| r_itemid := itemid (meta row);
           r_language := languageisocode (meta row);
           r_query_word := q;
           r_context := get_context t q cw;
           r_THE_LAW := t;
           r_query_language := None |}.
Proof.
  unfold matches_of. rewrite in_flat_map. split.
  - intros (row & Hrow & Hr). apply search_row_In in Hr.
    destruct Hr as (t & Ht & Hs & ->). exists row, t. auto.
  - intros (row & t & Hrow & Ht & Hs & ->). exists row. split; [exact Hrow|].
    apply search_row_In. exists t. auto.
Qed.

End RecordFacts.

Section RecordClaims.

Import Py Re TextSearcher.

Lemma row_matches_iff (q : str) (row : case_row) :
  row_matches q row = true <-> row_has_word q row.
Proof.
  unfold row_matches, row_has_word. destruct (THE_LAW row) as [t|].
  - destruct (search (word_pattern (lower q)) (lower t)) as [m|] eqn:E;
      cbn [is_some]; split.
    + intros _. assert (Hs : search (word_pattern (lower q)) (lower t) <> None)
        by congruence.
      apply search_word_pattern_iff in Hs. destruct Hs as [i Hi].
      now exists t, i.
    + reflexivity.
    + discriminate.
    + intros (t' & i & Ht & Hi). injection Ht as <-.
      assert (Hs : search (word_pattern (lower q)) (lower t) <> None)
        by (apply search_word_pattern_iff; now exists i).
      congruence.
  - split; [discriminate|]. intros (t & i & Ht & _). discriminate.
Qed.

(** The loop over the rows gives one record per row that passes the test,
    in order, and none for the others. *)
Lemma search_rows_records (q : str) (cw : Z) (l : list case_row) :
  Forall2
    (fun row r =>
       r_itemid r = itemid (meta row) /\
       r_language r = languageisocode (meta row) /\
       r_query_word r = q /\
       THE_LAW row = Some (r_THE_LAW r) /\
       r_context r = get_context (r_THE_LAW r) q cw /\
       r_context r <> [] /\
       r_query_language r = None)
    (filter (row_matches q) l)
    (flat_map (search_row q cw) l).
Proof.
  induction l as [|row l IH]; [constructor|].
  cbn [filter flat_map]. unfold row_matches at 1, search_row at 1.
  destruct (THE_LAW row) as [t|] eqn:Et; [|exact IH].
  destruct (search (word_pattern (lower q)) (lower t)) as [m|] eqn:E;
    cbn [is_some app]; [|exact IH].
  constructor; [|exact IH]. cbn. repeat split; try assumption.
  apply get_context_not_nil. congruence.
Qed.

(** X2 ([search_text], the records).  A call of [search_text] that returns
    gives exactly one record for each searched row whose text has the query
    as a whole word, letter case ignored, and none for the other rows, in
    the order of the rows.  The record carries the row's identifier,
    language code and text, the query word, and a context that is
    [get_context] of the text and is not empty. *)
Theorem search_text_finds_whole_word_rows (self : searcher) (q : str)
  (lf : option str) (cw : Z) (h h' : heap) (d : DataFrame)
  (res : list result) :
  corpus h self = Some d ->
  search_text self q lf cw h = Some (res, h') ->
  (forall row, row_matches q row = true <-> row_has_word q row) /\
  Forall2
    (fun row r =>
       r_itemid r = itemid (meta row) /\
       r_language r = languageisocode (meta row) /\
       r_query_word r = q /\
       THE_LAW row = Some (r_THE_LAW r) /\
       r_context r = get_context (r_THE_LAW r) q cw /\
       r_context r <> [] /\
       r_query_language r = None)
    (filter (row_matches q) (searched_rows d lf))
    res.
Proof.
  intros Hd Hrun. split; [intros row; apply row_matches_iff|].
  apply search_text_some in Hrun. destruct Hrun as (d' & Hd' & ->).
  assert (d' = d) by congruence. subst d'.
  apply search_rows_records.
Qed.

Lemma search_text_finds_whole_word_rows_witness :
  exists res h',
    search_text Fixtures.mixed_self "Destitution" None 2 Fixtures.mixed_heap
      = Some (res, h') /\
    map r_context res
    = [list_ascii_of_string "the **destitution** of...";
       list_ascii_of_string "la **destitution** du..."] /\
    Forall2 (fun row r => r_itemid r = itemid (meta row))
      (filter (row_matches "Destitution") Fixtures.mixed_corpus) res.
Proof.
  assert (Hd : corpus Fixtures.mixed_heap Fixtures.mixed_self
               = Some Fixtures.mixed_corpus) by (vm_compute; reflexivity).
  destruct (search_text Fixtures.mixed_self "Destitution" None 2
              Fixtures.mixed_heap) as [[res h']|] eqn:E;
    [|vm_compute in E; discriminate E].
  destruct (search_text_finds_whole_word_rows Fixtures.mixed_self
              "Destitution" None 2 Fixtures.mixed_heap h' Fixtures.mixed_corpus
              res Hd E) as [_ Hall].
  exists res, h'. split; [reflexivity|]. split.
  - vm_compute in E. injection E as <- _. vm_compute. reflexivity.
  - eapply Forall2_impl; [|exact Hall]. cbn beta. tauto.
Defined.

End RecordClaims.

(** ** The columns of the query table *)

Section ColumnClaims.

Import Py Re TextSearcher.

Lemma mem_language_columns (col : str) :
  mem (lower col) language_columns = is_some (language_of_column col).
Proof.
  unfold language_of_column, language_columns, mem.
  cbn [map existsb].
  repeat match goal with
         | |- context [str_eqb ?a ?b] => destruct (str_eqb a b)
         end; reflexivity.
Qed.

(** X3 (query columns).  The columns [search_all_queries] searches are
    columns of the query table.  Either the table has a column named
    english, french, en or fr (in any letter case): then exactly those
    columns are searched, in table order, and each one is searched with the
    language filter eng or fre.  Or it has none: then every column is
    searched, and none with a language filter. *)
Theorem query_columns_language_consistent (q : query_table) :
  incl (query_columns q) (columns q) /\
  ((query_columns q
      = filter (fun c => is_some (language_of_column c)) (columns q) /\
    query_columns q <> [] /\
    forall col, In col (query_columns q) ->
      language_of_column col = Some (list_ascii_of_string "eng") \/
      language_of_column col = Some (list_ascii_of_string "fre"))
   \/
   (query_columns q = columns q /\
    forall col, In col (columns q) -> language_of_column col = None)).
Proof.
  unfold query_columns.
  rewrite (filter_ext _ (fun c => is_some (language_of_column c))
             mem_language_columns).
  destruct (filter (fun c => is_some (language_of_column c)) (columns q))
    as [|c cs] eqn:E.
  - split; [apply incl_refl|]. right. split; [reflexivity|].
    intros col Hcol. destruct (language_of_column col) as [l|] eqn:El;
      [|reflexivity].
    assert (Hin : In col (filter (fun c => is_some (language_of_column c))
                            (columns q))).
    { apply filter_In. split; [exact Hcol|]. now rewrite El. }
    rewrite E in Hin. contradiction.
  - split.
    + rewrite <- E. intros x Hx. apply filter_In in Hx. tauto.
    + left. split; [reflexivity|]. split; [discriminate|].
      intros col Hcol. rewrite <- E in Hcol. apply filter_In in Hcol.
      destruct Hcol as [_ Hsome].
      destruct (language_of_column_code col) as [H|[H|H]];
        [now left|now right|].
      rewrite H in Hsome. discriminate.
Qed.

End ColumnClaims.

(** ** The match records [search_all_queries] collects *)

Section CollectFacts.

Import Py Re TextSearcher.

(** A call of [search_all_queries] that returns, on a store in which the
    corpus is allocated: the summaries are the aggregate of the match
    records of the query table over the corpus. *)
Lemma search_all_queries_returns (self : searcher) (cw : Z) (f : frame)
  (h h' : heap) (out : list summary) :
  corpus_frame h self = Some f ->
  search_all_queries self cw h = Some (out, h') ->
  out = aggregate (collected self (frame_rows f) cw) /\
  (exists t, h' = h ++ t) /\
  corpus_frame h' self = Some f.
Proof.
  intros Hf Hrun. unfold search_all_queries, bind in Hrun.
  destruct (collect_results self cw h) as [[all h1]|] eqn:Hc; [|discriminate].
  injection Hrun as <- <-.
  apply (collect_results_returns self cw f h h1 all Hf) in Hc.
  destruct Hc as (_ & -> & Ht & Hf1). auto.
Qed.

(** A loop whose bodies, when they return, return nothing and leave the
    store as it is returns nothing and leaves the store as it is. *)
Lemma for_each_nothing {A B : Type} (P : heap -> Prop) (l : list A)
  (body : A -> M (list B)) :
  (forall x h r h', P h -> body x h = Some (r, h') -> r = [] /\ h' = h) ->
  forall h rs h', P h -> for_each l body h = Some (rs, h') -> rs = [] /\ h' = h.
Proof.
  intros Hbody. induction l as [|x l IH]; intros h rs h' Hh Hrun.
  - cbn in Hrun. injection Hrun as <- <-. auto.
  - cbn [for_each] in Hrun. unfold bind in Hrun.
    destruct (body x h) as [[r h1]|] eqn:Er; [|discriminate].
    destruct (Hbody x h r h1 Hh Er) as [-> ->].
    destruct (for_each l body h) as [[rs' h2]|] eqn:Ers; [|discriminate].
    destruct (IH h rs' h2 Hh Ers) as [-> ->].
    cbn in Hrun. injection Hrun as <- <-. auto.
Qed.

(** On a store in which the corpus is not allocated every search raises,
    so the collection loops return only when no cell is searched. *)
Lemma collect_results_dangling (self : searcher) (cw : Z) (h h' : heap)
  (all : list result) :
  corpus_frame h self = None ->
  collect_results self cw h = Some (all, h') -> all = [] /\ h' = h.
Proof.
  intros Hf Hrun. unfold collect_results in Hrun.
  eapply (for_each_nothing (fun h => corpus_frame h self = None)) in Hrun;
    [exact Hrun| |exact Hf].
  intros query_row h0 r h1 Hf0.
  apply (for_each_nothing (fun h => corpus_frame h self = None)); [|exact Hf0].
  intros col h2 r' h3 Hf2 Hcell. unfold search_cell in Hcell.
  destruct (cell _ query_row col) as [v|].
  - destruct (strip v) as [|c q].
    + cbn in Hcell. injection Hcell as <- <-. auto.
    + unfold bind in Hcell. rewrite search_text_dangling in Hcell by exact Hf2.
      discriminate.
  - cbn in Hcell. injection Hcell as <- <-. auto.
Qed.

(** The match records of a run of the collection loops that returns. *)
Lemma collect_results_shape (self : searcher) (cw : Z) (h h' : heap)
  (all : list result) :
  collect_results self cw h = Some (all, h') ->
  all = [] \/
  exists f,
    corpus_frame h self = Some f /\ all = collected self (frame_rows f) cw.
Proof.
  intros Hrun. destruct (corpus_frame h self) as [f|] eqn:Hf.
  - right. exists f. split; [reflexivity|].
    now apply (collect_results_returns self cw f h h' all Hf) in Hrun.
  - left. eapply collect_results_dangling; eassumption.
Qed.

(** What a run of the collection loops that returns leaves: the frames of
    the store as they were, and a store on which a second run returns the
    same records. *)
Lemma collect_results_again (self : searcher) (cw : Z) (h h' : heap)
  (all : list result) :
  collect_results self cw h = Some (all, h') ->
  (exists t, h' = h ++ t) /\
  exists h'', collect_results self cw h' = Some (all, h'').
Proof.
  intros Hrun. destruct (corpus_frame h self) as [f|] eqn:Hf.
  - apply (collect_results_returns self cw f h h' all Hf) in Hrun.
    destruct Hrun as (Hok & -> & Ht & Hf'). split; [exact Ht|].
    pose proof (collect_results_frame self cw f h' Hf') as H.
    rewrite Hok in H. destruct H as (t' & H & _). now exists (h' ++ t').
  - pose proof (collect_results_dangling self cw h h' all Hf Hrun) as [-> ->].
    split; [exists []; now rewrite app_nil_r|]. now exists h.
Qed.

Lemma search_all_queries_shape (self : searcher) (cw : Z) (h h' : heap)
  (out : list summary) :
  search_all_queries self cw h = Some (out, h') ->
  exists all,
    collect_results self cw h = Some (all, h') /\ out = aggregate all /\
    (all = [] \/
     exists f,
       corpus_frame h self = Some f /\
       all = collected self (frame_rows f) cw).
Proof.
  intros Hrun. unfold search_all_queries, bind in Hrun.
  destruct (collect_results self cw h) as [[all h1]|] eqn:Hc; [|discriminate].
  injection Hrun as <- <-. exists all. split; [reflexivity|].
  split; [reflexivity|]. eapply collect_results_shape. exact Hc.
Qed.

Lemma collected_In (self : searcher) (d : DataFrame) (cw : Z) (r : result) :
  In r (collected self d cw) ->
  exists query_row col v r0,
    In query_row (cells (queries self)) /\
    In col (query_columns (queries self)) /\
    cell (columns (queries self)) query_row col = Some v /\
    strip v <> [] /\
    In r0 (matches_of d (strip v) (language_of_column col) cw) /\
    r = set_query_language col r0.
Proof.
  unfold collected. intros H. apply in_flat_map in H.
  destruct H as (query_row & Hrow & H). apply in_flat_map in H.
  destruct H as (col & Hcol & H). unfold cell_matches in H.
  destruct (cell _ query_row col) as [v|] eqn:Ev; [|contradiction].
  destruct (strip v) as [|c q] eqn:Es; [contradiction|].
  apply in_map_iff in H. destruct H as (r0 & <- & Hr0).
  exists query_row, col, v, r0. rewrite Es.
  repeat split; try assumption. discriminate.
Qed.

(** The fields a summary takes from the first record of its group. *)
Lemma aggregate_first (all : list result) (s : summary) :
  In s (aggregate all) ->
  exists first,
    In first all /\
    key_of first = summary_key s /\
    s_language s = r_language first /\
    s_query_language s = r_query_language first /\
    s_THE_LAW s = r_THE_LAW first.
Proof.
  intros H. apply aggregate_In in H. unfold summarise in H.
  cbn [snd fst] in H.
  destruct (filter (fun r => key_eqb (key_of r) (summary_key s)) all)
    as [|first rest] eqn:E; [contradiction|].
  destruct H as [H|[]].
  assert (Hin : In first (filter (fun r => key_eqb (key_of r) (summary_key s))
                            all)) by (rewrite E; now left).
  apply filter_In in Hin. destruct Hin as [Hin Hk]. apply key_eqb_eq in Hk.
  exists first. rewrite <- H. cbn. rewrite <- H in Hk. cbn in Hk.
  repeat split; try assumption; reflexivity.
Qed.

End CollectFacts.

Section StripFacts.

Import Py.

Lemma strip_left_cons (c : ascii) (s : str) :
  strip_left (c :: s) = if isspace c then strip_left s else c :: s.
Proof. reflexivity. Qed.

Lemma strip_left_spec (s : str) :
  (exists p, s = p ++ strip_left s) /\
  match strip_left s with
  | [] => True
  | c :: _ => isspace c = false
  end.
Proof.
  induction s as [|c s [[p Hp] Hhead]].
  - split; [now exists []|exact I].
  - rewrite strip_left_cons. destruct (isspace c) eqn:Ec.
    + split; [|exact Hhead]. exists (c :: p). cbn [app]. now rewrite <- Hp.
    + split; [now exists []|exact Ec].
Qed.

Lemma strip_trimmed (s : str) : trimmed (strip s).
Proof.
  unfold strip.
  destruct (strip_left_spec s) as [_ Ha].
  destruct (strip_left_spec (rev (strip_left s))) as [[p Hp] Hb].
  set (a := strip_left s) in *.
  set (b := strip_left (rev a)) in *.
  destruct b as [|c b']; [exact I|].
  assert (Ea : a = (rev b' ++ [c]) ++ rev p).
  { rewrite <- (rev_involutive a), Hp, rev_app_distr. reflexivity. }
  cbn [rev]. destruct (rev b' ++ [c]) as [|x rest] eqn:Ex.
  - destruct (rev b'); discriminate.
  - unfold trimmed. split.
    + rewrite Ea in Ha. exact Ha.
    + rewrite <- Ex, last_last. exact Hb.
Qed.

End StripFacts.

Section ProvenanceFacts.

Import Py Re TextSearcher.

Lemma collected_record (self : searcher) (d : DataFrame) (cw : Z) (r : result) :
  In r (collected self d cw) ->
  r_context r <> [] /\
  r_query_word r <> [] /\
  trimmed (r_query_word r) /\
  exists query_row col v,
    In query_row (cells (queries self)) /\
    In col (query_columns (queries self)) /\
    cell (columns (queries self)) query_row col = Some v /\
    r_query_word r = strip v /\
    r_query_language r = Some col /\
    forall code, language_of_column col = Some code ->
      exists l, r_language r = Some l /\ lower l = code.
Proof.
  intros H. apply collected_In in H.
  destruct H as (query_row & col & v & r0 & Hrow & Hcol & Hv & Hne & Hr0 & ->).
  apply matches_of_In in Hr0.
  destruct Hr0 as (row & t & Hsearched & Ht & Hs & ->). cbn.
  split; [now apply get_context_not_nil|].
  split; [exact Hne|]. split; [apply strip_trimmed|].
  exists query_row, col, v. repeat split; try assumption.
  intros code Hcode.
  assert (Hc : code <> [] /\ lower code = code).
  { destruct (language_of_column_code col) as [E|[E|E]];
      rewrite E in Hcode; [| |discriminate];
      injection Hcode as <-; split; (discriminate || reflexivity). }
  destruct Hc as [Hcne Hlow].
  unfold searched_rows in Hsearched. rewrite Hcode in Hsearched.
  destruct code as [|c code']; [congruence|]. cbn [filter_given] in Hsearched.
  apply filter_In in Hsearched. destruct Hsearched as [_ Hmask].
  unfold language_mask in Hmask.
  destruct (languageisocode (meta row)) as [l|]; [|discriminate].
  exists l. split; [reflexivity|].
  apply str_eqb_eq in Hmask. now rewrite Hmask.
Qed.

End ProvenanceFacts.

Section ProvenanceClaims.

Import Py Re TextSearcher.

(** The first record of the group of a summary of a run that returns. *)
Lemma summary_first_record (self : searcher) (cw : Z) (h h' : heap)
  (out : list summary) (s : summary) :
  search_all_queries self cw h = Some (out, h') -> In s out ->
  exists f first,
    corpus_frame h self = Some f /\
    In first (collected self (frame_rows f) cw) /\
    key_of first = summary_key s /\
    s_language s = r_language first /\
    s_query_language s = r_query_language first /\
    s_THE_LAW s = r_THE_LAW first.
Proof.
  intros Hrun Hs. apply search_all_queries_shape in Hrun.
  destruct Hrun as (all & _ & -> & [->|(f & Hf & ->)]); [contradiction|].
  apply aggregate_first in Hs. destruct Hs as (first & Hfirst).
  exists f, first. tauto.
Qed.

(** X4 (query words of the summaries).  In the table a call of
    [search_all_queries] returns, every summary's query word is a cell of
    the query table with the surrounding whitespace stripped: it is not
    empty, it has no whitespace at either end, and the column it stands in
    is a searched column, recorded as the summary's [query_language]. *)
Theorem search_all_queries_query_words_are_stripped_cells (self : searcher)
  (cw : Z) (h h' : heap) (out : list summary) :
  search_all_queries self cw h = Some (out, h') ->
  forall s, In s out ->
    s_query_word s <> [] /\
    trimmed (s_query_word s) /\
    exists query_row col v,
      In query_row (cells (queries self)) /\
      In col (query_columns (queries self)) /\
      cell (columns (queries self)) query_row col = Some v /\
      s_query_word s = strip v /\
      s_query_language s = Some col.
Proof.
  intros Hrun s Hs.
  destruct (summary_first_record self cw h h' out s Hrun Hs)
    as (f & first & _ & Hin & Hkey & _ & Hql & _).
  apply collected_record in Hin.
  destruct Hin as (_ & Hne & Htrim & query_row & col & v & H1 & H2 & H3 & H4 & H5 & _).
  assert (Hw : r_query_word first = s_query_word s)
    by (unfold key_of, summary_key in Hkey; congruence).
  rewrite <- Hw, Hql. split; [exact Hne|]. split; [exact Htrim|].
  exists query_row, col, v. auto.
Qed.

Lemma search_all_queries_query_words_are_stripped_cells_witness :
  exists out h',
    search_all_queries Fixtures.mixed_self 2 Fixtures.mixed_heap
      = Some (out, h') /\
    map (fun s => (s_query_word s, s_query_language s)) out
    = [(list_ascii_of_string "destitution",
        Some (list_ascii_of_string "English"))] /\
    forall s, In s out -> trimmed (s_query_word s).
Proof.
  destruct (search_all_queries Fixtures.mixed_self 2 Fixtures.mixed_heap)
    as [[out h']|] eqn:E; [|vm_compute in E; discriminate E].
  pose proof (search_all_queries_query_words_are_stripped_cells
                Fixtures.mixed_self 2 Fixtures.mixed_heap h' out E) as Hall.
  exists out, h'. split; [reflexivity|]. split.
  - vm_compute in E. injection E as <- _. vm_compute. reflexivity.
  - intros s Hs. now apply Hall.
Defined.



End ProvenanceClaims.

(** ** Groups and their summaries *)

Section GroupFacts.

Import Py Re TextSearcher.

Lemma filter_non_empty_all (l : list str) :
  Forall (fun x => x <> []) l -> filter non_empty l = l.
Proof.
  induction 1 as [|x l Hx _ IH]; [reflexivity|].
  simpl. destruct x; [congruence|]. simpl. now rewrite IH.
Qed.

Lemma list_sum_cons (x : nat) (l : list nat) :
  list_sum (x :: l) = x + list_sum l.
Proof. reflexivity. Qed.

(** Each group contributes its size, an empty group nothing. *)
Lemma summaries_count (rs : list result) (ks : list key) :
  list_sum
    (map s_match_count
       (flat_map summarise
          (map (fun k => (k, filter (fun r => key_eqb (key_of r) k) rs)) ks)))
  = list_sum
      (map (fun k => length (filter (fun r => key_eqb (key_of r) k) rs)) ks).
Proof.
  induction ks as [|k ks IH]; [reflexivity|].
  cbn [map flat_map]. rewrite map_app, list_sum_app, IH, list_sum_cons.
  f_equal. unfold summarise. cbn [snd fst].
  destruct (filter (fun r => key_eqb (key_of r) k) rs); [reflexivity|].
  cbn [map s_match_count]. rewrite list_sum_cons. apply Nat.add_0_r.
Qed.

Lemma key_count_zero (x : key) (ks : list key) :
  ~ In x ks ->
  list_sum (map (fun k => if key_eqb x k then 1 else 0) ks) = 0.
Proof.
  induction ks as [|k ks IH]; intros Hk; [reflexivity|].
  cbn [map]. rewrite list_sum_cons. destruct (key_eqb x k) eqn:E.
  - apply key_eqb_eq in E. subst k. exfalso. apply Hk. now left.
  - rewrite IH; [reflexivity|]. intros H. apply Hk. now right.
Qed.

Lemma key_count_one (x : key) (ks : list key) :
  NoDup ks -> In x ks ->
  list_sum (map (fun k => if key_eqb x k then 1 else 0) ks) = 1.
Proof.
  induction 1 as [|k ks Hk Hnd IH]; intros Hin; [contradiction|].
  cbn [map]. rewrite list_sum_cons. destruct (key_eqb x k) eqn:E.
  - apply key_eqb_eq in E. subst k. now rewrite key_count_zero.
  - destruct Hin as [->|Hin].
    + assert (key_eqb x x = true) by now apply key_eqb_eq. congruence.
    + rewrite (IH Hin). reflexivity.
Qed.

Lemma list_sum_map_add {A : Type} (f g : A -> nat) (l : list A) :
  list_sum (map (fun x => f x + g x) l)
  = list_sum (map f l) + list_sum (map g l).
Proof.
  induction l as [|x l IH]; [reflexivity|].
  cbn [map]. rewrite !list_sum_cons, IH. lia.
Qed.

(** Groups over distinct keys that cover the records partition them. *)
Lemma groups_partition (rs : list result) (ks : list key) :
  NoDup ks -> (forall r, In r rs -> In (key_of r) ks) ->
  list_sum
    (map (fun k => length (filter (fun r => key_eqb (key_of r) k) rs)) ks)
  = length rs.
Proof.
  intros Hnd. induction rs as [|r rs IH]; intros Hcover.
  - cbn [filter length]. clear. induction ks as [|k ks IHk]; [reflexivity|].
    cbn [map]. rewrite list_sum_cons. exact IHk.
  - cbn [length]. rewrite <- IH by (intros x Hx; apply Hcover; now right).
    change (S ?n) with (1 + n).
    rewrite <- (key_count_one (key_of r) ks Hnd) by (apply Hcover; now left).
    rewrite <- list_sum_map_add. f_equal. apply map_ext. intros k.
    cbn [filter]. destruct (key_eqb (key_of r) k); reflexivity.
Qed.

End GroupFacts.

Section GroupClaims.

Import Py Re TextSearcher.

Lemma aggregate_counts (all : list result) (s : summary) :
  In s (aggregate all) ->
  let group := filter (fun r => key_eqb (key_of r) (summary_key s)) all in
  1 <= s_match_count s /\
  s_match_count s = length group /\
  s_combined_context s = join SEP (filter non_empty (map r_context group)).
Proof.
  intros H group. apply aggregate_In in H. fold group in H.
  unfold summarise in H. cbn [snd fst] in H.
  destruct group as [|first rest] eqn:E; [contradiction|].
  destruct H as [<-|[]]. cbn. repeat split. lia.
Qed.

Lemma length_le_list_sum {A : Type} (f : A -> nat) (l : list A) :
  Forall (fun x => 1 <= f x) l -> length l <= list_sum (map f l).
Proof.
  induction 1 as [|x l Hx _ IH]; [apply le_n|].
  cbn [map length]. rewrite list_sum_cons. lia.
Qed.

(** X6 (match counts).  The grouping loses and invents no match record:
    the [match_count]s of the summaries add up to the number of match
    records collected, every summary counts at least one record, and there
    are no more summaries than records. *)
Theorem match_counts_add_up (all : list result) :
  list_sum (map s_match_count (aggregate all)) = length all /\
  Forall (fun s => 1 <= s_match_count s) (aggregate all) /\
  length (aggregate all) <= length all.
Proof.
  assert (Hsum : list_sum (map s_match_count (aggregate all)) = length all).
  { destruct all as [|r all']; [reflexivity|].
    set (all := r :: all'). change (aggregate all)
      with (flat_map summarise (groupby all)).
    unfold groupby. rewrite summaries_count. apply groups_partition.
    - apply sort_keys_NoDup, distinct_NoDup.
    - intros x Hx. apply group_keys_In. now apply in_map. }
  assert (Hpos : Forall (fun s => 1 <= s_match_count s) (aggregate all)).
  { apply Forall_forall. intros s Hs. now apply aggregate_counts in Hs. }
  split; [exact Hsum|]. split; [exact Hpos|].
  rewrite <- Hsum. now apply length_le_list_sum.
Qed.

(** X8 (combined context).  Every match record a run of the collection
    loops returns has a non-empty context, so the filter on empty contexts
    drops nothing: the combined context of a summary is the join by
    [" | "] of the contexts of all the records of its group, and it is not
    empty. *)
Theorem summaries_join_every_context (self : searcher) (cw : Z)
  (h h' : heap) (all : list result) :
  collect_results self cw h = Some (all, h') ->
  search_all_queries self cw h = Some (aggregate all, h') /\
  Forall (fun r => r_context r <> []) all /\
  forall s, In s (aggregate all) ->
    s_combined_context s <> [] /\
    s_combined_context s
      = join SEP
          (map r_context
             (filter (fun r => key_eqb (key_of r) (summary_key s)) all)).
Proof.
  intros Hc. split; [now apply search_all_queries_collect|].
  assert (Hall : Forall (fun r => r_context r <> []) all).
  { apply collect_results_shape in Hc.
    destruct Hc as [->|(f & _ & ->)]; [constructor|].
    apply Forall_forall. intros r Hr. now apply collected_record in Hr. }
  split; [exact Hall|]. intros s Hs.
  pose proof (aggregate_counts _ _ Hs) as (Hpos & Hlen & Hctx).
  set (group := filter (fun r => key_eqb (key_of r) (summary_key s)) all) in *.
  assert (Hg : Forall (fun x => x <> []) (map r_context group)).
  { apply Forall_forall. intros x Hx. apply in_map_iff in Hx.
    destruct Hx as (r & <- & Hr). unfold group in Hr. apply filter_In in Hr.
    rewrite Forall_forall in Hall. apply Hall. tauto. }
  rewrite filter_non_empty_all in Hctx by exact Hg.
  split; [|exact Hctx]. rewrite Hctx.
  destruct group as [|r g]; [simpl in Hlen; lia|].
  cbn [map]. apply join_not_nil. now inversion Hg.
Qed.

Lemma summaries_join_every_context_witness :
  exists all h',
    collect_results Fixtures.twice_self 2 Fixtures.mixed_heap = Some (all, h') /\
    length all = 4 /\
    Forall (fun r => r_context r <> []) all /\
    map s_combined_context (aggregate all)
    = [list_ascii_of_string
         "the **destitution** of... | the **destitution** of...";
       list_ascii_of_string
         "la **destitution** du... | la **destitution** du..."].
Proof.
  destruct (collect_results Fixtures.twice_self 2 Fixtures.mixed_heap)
    as [[all h']|] eqn:E; [|vm_compute in E; discriminate E].
  destruct (summaries_join_every_context Fixtures.twice_self 2
              Fixtures.mixed_heap h' all E) as (_ & Hall & _).
  exists all, h'. split; [reflexivity|].
  vm_compute in E. injection E as <- _.
  split; [vm_compute; reflexivity|]. split; [exact Hall|].
  vm_compute. reflexivity.
Defined.

End GroupClaims.

(** ** From the input files to the summaries *)

Section PipelineFacts.

Import Py Re TextSearcher.

Lemma merge_left_complete (ds : list dataset_row) (lw : list law_row)
  (l : dataset_row) (lr : law_row) :
  In l ds -> In lr lw -> law_itemid lr = itemid l ->
  In {| meta := l; THE_LAW := law_THE_LAW lr |} (merge_left ds lw).
Proof.
  intros Hl Hlr Hid. unfold merge_left. apply in_flat_map.
  exists l. split; [exact Hl|].
  assert (Hin : In lr (filter (fun r => str_eqb (law_itemid r) (itemid l)) lw)).
  { apply filter_In. split; [exact Hlr|]. now apply str_eqb_eq. }
  destruct (filter (fun r => str_eqb (law_itemid r) (itemid l)) lw)
    as [|lr0 lrs]; [contradiction|].
  apply (in_map (fun r => {| meta := l; THE_LAW := law_THE_LAW r |})), Hin.
Qed.

Lemma init_corpus (ds : list dataset_row) (lw : list law_row) (q : query_table)
  (rows : option nat) (h : heap) :
  let d := filter (fun r => negb (isna (THE_LAW r)))
             (merge_left ds (read_law lw rows)) in
  exists self h',
    __init__ ds lw q rows h = Some (self, h') /\ corpus h' self = Some d.
Proof.
  intros d. destruct (init_frame ds lw q rows h) as (self & h' & Hrun & Hf).
  exists self, h'. split; [exact Hrun|]. unfold corpus. now rewrite Hf.
Qed.

Lemma corpus_row_iff (ds : list dataset_row) (lw : list law_row) (r : case_row) :
  In r (filter (fun r => negb (isna (THE_LAW r))) (merge_left ds lw)) <->
  In (meta r) ds /\
  exists lr t,
    In lr lw /\ law_itemid lr = itemid (meta r) /\
    law_THE_LAW lr = Some t /\ THE_LAW r = Some t.
Proof.
  rewrite filter_In. split.
  - intros [Hr Htext]. apply merge_left_In in Hr.
    destruct Hr as [Hmeta [Hnone|(lr & Hlr & Hid & Heq)]].
    + rewrite Hnone in Htext. discriminate.
    + split; [exact Hmeta|]. destruct (THE_LAW r) as [t|] eqn:Et;
        [|discriminate].
      exists lr, t. auto.
  - intros (Hmeta & lr & t & Hlr & Hid & Hlaw & Ht). split.
    + destruct r as [m txt]. cbn in *. subst txt. rewrite <- Hlaw.
      now apply merge_left_complete.
    + now rewrite Ht.
Qed.

End PipelineFacts.

Section PipelineClaims.

Import Py Re TextSearcher.

(** X9 (corpus assembly is an inner join).  The corpus [__init__] builds
    by a left merge followed by dropping the rows without text holds
    exactly the pairs of a dataset row and a law row (among the rows read)
    that have the same itemid and a text that is present: such a pair is a
    corpus row, and every corpus row is such a pair. *)
Theorem corpus_is_inner_join_on_itemid (ds : list dataset_row)
  (lw : list law_row) (q : query_table) (rows : option nat) (h : heap) :
  exists self h' d,
    __init__ ds lw q rows h = Some (self, h') /\
    corpus h' self = Some d /\
    forall r,
      In r d <->
      In (meta r) ds /\
      exists lr t,
        In lr (read_law lw rows) /\
        law_itemid lr = itemid (meta r) /\
        law_THE_LAW lr = Some t /\
        THE_LAW r = Some t.
Proof.
  destruct (init_corpus ds lw q rows h) as (self & h' & Hrun & Hd).
  eexists self, h', _. split; [exact Hrun|]. split; [exact Hd|].
  intros r. apply corpus_row_iff.
Qed.

(** X10 (from the files to the summaries).  [__init__] returns a searcher
    for all three tables; in the table a call of [search_all_queries] on
    that searcher returns, every summary reports a case of the dataset
    table with that case's language, carries a text the law table gives for
    the same itemid, and that text has the summary's query word as a whole
    word, letter case ignored. *)
Theorem summaries_refer_to_the_input_tables (ds : list dataset_row)
  (lw : list law_row) (q : query_table) (rows : option nat) (cw : Z)
  (h : heap) :
  exists self h1,
    __init__ ds lw q rows h = Some (self, h1) /\
    forall out h2 s,
      search_all_queries self cw h1 = Some (out, h2) -> In s out ->
      exists l lr,
        In l ds /\ In lr (read_law lw rows) /\
        itemid l = s_itemid s /\
        law_itemid lr = s_itemid s /\
        languageisocode l = s_language s /\
        law_THE_LAW lr = Some (s_THE_LAW s) /\
        exists i,
          occurs_as_word (lower (s_query_word s)) (lower (s_THE_LAW s)) i.
Proof.
  destruct (init_frame ds lw q rows h) as (self & h1 & Hrun & Hf).
  exists self, h1. split; [exact Hrun|]. intros out h2 s Hs Hin.
  destruct (summary_first_record self cw h1 h2 out s Hs Hin)
    as (f & first & Hf' & Hfirst & Hkey & Hl & _ & Hlaw).
  rewrite Hf in Hf'. injection Hf' as <-. cbn [frame_rows] in Hfirst.
  apply collected_In in Hfirst.
  destruct Hfirst as (query_row & col & v & r0 & _ & _ & _ & _ & Hr0 & ->).
  apply matches_of_In in Hr0.
  destruct Hr0 as (row & txt & Hrow & Htxt & Hsearch & ->).
  apply searched_rows_incl, corpus_row_iff in Hrow.
  destruct Hrow as (Hmeta & lr & txt' & Hlr & Hid & Hlt & Htxt').
  assert (txt' = txt) by congruence. subst txt'.
  unfold key_of, summary_key in Hkey. cbn in Hkey, Hl, Hlaw.
  injection Hkey as Hk1 Hk2.
  exists (meta row), lr. rewrite Hl, Hlaw, <- Hk1, <- Hk2.
  repeat split; try assumption.
  now apply search_word_pattern_iff.
Qed.

End PipelineClaims.

(** ** A radius that covers the whole text *)

Section WholeTextClaims.

Import Py Re TextSearcher.

(** X11 (large radius).  When the radius is at least the number of tokens
    of the text, nothing is cut: the context of every occurrence is the
    whole text, its tokens joined by single spaces with the matching
    tokens emphasised, without any ellipsis; the result repeats it once
    per occurrence. *)
Theorem get_context_whole_text (text term : str) (radius : Z) :
  (Z.of_nat (length (split text)) <= radius)%Z ->
  let pattern := word_pattern (lower term) in
  get_context text term radius
  = join SEP
      (map (fun _ => join " " (map (highlight pattern) (split text)))
         (finditer pattern (lower text))).
Proof.
  intros Hr pattern. rewrite get_context_join. fold pattern. f_equal.
  apply map_ext_in. intros m Hm.
  pose proof (word_pos_in_range text term m Hm) as Hwp.
  rewrite context_of_shape. unfold window, start_idx, end_idx.
  set (wp := word_pos text (m_start m)) in *.
  set (n := Z.of_nat (length (split text))) in *.
  replace (Z.max 0 (wp - radius)) with 0%Z by lia.
  replace (Z.min n (wp + radius + 1)) with n by lia.
  unfold n. rewrite !Z.ltb_irrefl, slice_all.
  cbn [app]. apply app_nil_r.
Qed.

Lemma get_context_whole_text_witness :
  (Z.of_nat (length (split "a b c match d e")) <= 10)%Z /\
  get_context "a b c match d e" "match" 10 = "a b c **match** d e".
Proof.
  assert (H : (Z.of_nat (length (split "a b c match d e")) <= 10)%Z)
    by (vm_compute; discriminate).
  split; [exact H|].
  rewrite (get_context_whole_text "a b c match d e" "match" 10 H).
  vm_compute. reflexivity.
Defined.

End WholeTextClaims.

(** * The result browser *)

Section SplitOnFacts.

Import Py.

Lemma split_on_not_nil (c : ascii) (s : str) : split_on c s <> [].
Proof.
  destruct s as [|x s]; simpl; [discriminate|].
  destruct (Ascii.eqb x c); [discriminate|].
  destruct (split_on c s); discriminate.
Qed.

(** Joining the pieces with the separator gives the string back. *)
Lemma join_split_on (c : ascii) (s : str) : join [c] (split_on c s) = s.
Proof.
  induction s as [|x s IH]; [reflexivity|].
  cbn [split_on]. destruct (Ascii.eqb x c) eqn:E.
  - apply Ascii.eqb_eq in E. subst x. rewrite join_cons.
    pose proof (split_on_not_nil c s) as Hne.
    destruct (split_on c s) as [|t ts]; [congruence|].
    rewrite IH. reflexivity.
  - destruct (split_on c s) as [|t ts] eqn:Es.
    + exfalso. now apply (split_on_not_nil c s).
    + rewrite join_cons in *. rewrite <- IH. reflexivity.
Qed.

Lemma split_on_length (c : ascii) (s : str) :
  length (split_on c s) = S (count_occ ascii_dec s c).
Proof.
  induction s as [|x s IH]; [reflexivity|].
  cbn [split_on count_occ]. destruct (Ascii.eqb x c) eqn:E.
  - apply Ascii.eqb_eq in E. subst x.
    destruct (ascii_dec c c); [|congruence]. cbn [length]. now rewrite IH.
  - apply Ascii.eqb_neq in E. destruct (ascii_dec x c); [congruence|].
    rewrite <- IH. destruct (split_on c s) as [|t ts] eqn:Es; [|reflexivity].
    exfalso. now apply (split_on_not_nil c s).
Qed.

Lemma split_on_no_sep (c : ascii) (s : str) :
  Forall (fun t => ~ In c t) (split_on c s).
Proof.
  induction s as [|x s IH]; cbn [split_on].
  - constructor; [intros []|constructor].
  - destruct (Ascii.eqb x c) eqn:E.
    + constructor; [intros []|exact IH].
    + apply Ascii.eqb_neq in E.
      destruct (split_on c s) as [|t ts].
      * constructor; [|constructor]. intros [H|[]]. congruence.
      * inversion IH as [|? ? Ht Hts]; subst. constructor; [|exact Hts].
        intros [H|H]; [congruence|contradiction].
Qed.

End SplitOnFacts.

Section AppnoClaims.

Import Py App.

Lemma count_occ_no_sep (c : ascii) (t : str) :
  ~ In c t -> count_occ ascii_dec t c = 0.
Proof. intros H. now apply count_occ_not_In. Qed.

(** X12 (application numbers in a title).  A list of at most three
    application numbers (at most two semicolons) is shown as it is.  A
    longer one is cut at its third semicolon and the words " and others"
    are put in place of the rest, so the title shows exactly the first
    three numbers. *)
Theorem preprocess_appno_shows_first_three (appno : str) :
  (count_occ ascii_dec appno ";"%char <= 2 ->
   _preprocess_appno appno = appno) /\
  (3 <= count_occ ascii_dec appno ";"%char ->
   exists p rest,
     appno = p ++ ";"%char :: rest /\
     count_occ ascii_dec p ";"%char = 2 /\
     _preprocess_appno appno = p ++ AND_OTHERS).
Proof.
  unfold _preprocess_appno.
  pose proof (split_on_length ";" appno) as Hlen.
  pose proof (split_on_no_sep ";" appno) as Hsep.
  pose proof (join_split_on ";" appno) as Hjoin.
  set (appnos := split_on ";" appno) in *.
  split; intros Hc.
  - destruct (Nat.ltb_spec 3 (length appnos)); [lia|exact Hjoin].
  - destruct (Nat.ltb_spec 3 (length appnos)); [|lia].
    destruct appnos as [|a [|b [|c [|d l]]]]; try (simpl in Hlen; lia).
    exists (join ";" [a; b; c]), (join ";" (d :: l)). split; [|split].
    + rewrite <- Hjoin. cbn [join]. rewrite <- !app_assoc. reflexivity.
    + inversion Hsep as [|? ? Ha Hsep1]; subst.
      inversion Hsep1 as [|? ? Hb Hsep2]; subst.
      inversion Hsep2 as [|? ? Hc' _]; subst.
      cbn [join]. rewrite !count_occ_app.
      rewrite (count_occ_no_sep _ _ Ha), (count_occ_no_sep _ _ Hb),
        (count_occ_no_sep _ _ Hc').
      reflexivity.
    + f_equal. f_equal.
      rewrite slice_in_range by (cbn [length]; lia). reflexivity.
Qed.

End AppnoClaims.

Section PagingFacts.

Import Py App.

Context {A : Type}.

Lemma firstn_add_skipn (a b : nat) (l : list A) :
  firstn (a + b) l = firstn a l ++ firstn b (skipn a l).
Proof.
  revert l. induction a as [|a IH]; intros l; [reflexivity|].
  destruct l as [|x l]; cbn [Nat.add firstn skipn app].
  - now rewrite firstn_nil.
  - now rewrite IH.
Qed.

(** A slice between two non-negative bounds in order. *)
Lemma slice_nonneg (l : list A) (a b : Z) :
  (0 <= a <= b)%Z ->
  slice l a b = firstn (Z.to_nat (b - a)) (skipn (Z.to_nat a) l).
Proof.
  intros Hab. unfold slice, norm_index.
  set (n := Z.of_nat (length l)).
  destruct (Z.ltb_spec a 0); [lia|]. destruct (Z.ltb_spec b 0); [lia|].
  destruct (Z.le_gt_cases a n) as [Han|Han].
  - rewrite (Z.min_l a n) by lia.
    destruct (Z.le_gt_cases b n) as [Hbn|Hbn].
    + rewrite (Z.min_l b n) by lia. reflexivity.
    + rewrite (Z.min_r b n) by lia.
      rewrite !firstn_all2; [reflexivity| |];
        rewrite length_skipn; unfold n in *; lia.
  - rewrite (Z.min_r a n), (Z.min_r b n) by lia.
    rewrite !skipn_all2 by (unfold n in *; lia).
    now rewrite !firstn_nil.
Qed.

Lemma paginate_nat (df : list A) (page_size : Z) (k : nat) :
  (0 < page_size)%Z ->
  paginate_dataframe df page_size (Z.of_nat k)
  = firstn (Z.to_nat page_size) (skipn (k * Z.to_nat page_size) df).
Proof.
  intros Hps. unfold paginate_dataframe. rewrite slice_nonneg by nia.
  f_equal; [f_equal; lia|f_equal].
  rewrite Z2Nat.inj_mul, Nat2Z.id by lia. reflexivity.
Qed.

Lemma pages_concat (df : list A) (ps k : nat) :
  concat (map (fun i => firstn ps (skipn (i * ps) df)) (seq 0 k))
  = firstn (k * ps) df.
Proof.
  induction k as [|k IH]; [reflexivity|].
  rewrite seq_S, map_app, concat_app, IH. cbn [map concat Nat.add].
  rewrite app_nil_r.
  replace (S k * ps) with (k * ps + ps) by lia.
  now rewrite firstn_add_skipn.
Qed.

Lemma total_pages_cover (len page_size : Z) :
  (0 <= len)%Z -> (0 < page_size)%Z ->
  (1 <= total_pages len page_size)%Z /\
  (len <= total_pages len page_size * page_size)%Z /\
  (0 < len -> (total_pages len page_size - 1) * page_size < len)%Z.
Proof.
  intros Hlen Hps. unfold total_pages. destruct (Z.ltb_spec 0 len); [|lia].
  pose proof (Z.mul_div_le (len - 1) page_size Hps).
  pose proof (Z.mul_succ_div_gt (len - 1) page_size Hps).
  assert (0 <= (len - 1) / page_size)%Z by (apply Z.div_pos; lia).
  split; [lia|]. split; nia.
Qed.

End PagingFacts.

Section PagingClaims.

Import Py App.

(** X13 (pages).  For a positive page size the pages 0 .. total_pages - 1
    of a table, one after the other, are the table: every row is on exactly
    one page, in order.  No page has more rows than the page size, and a
    page number past the last page gives an empty page. *)
Theorem pages_partition_the_rows {A : Type} (df : list A) (page_size : Z) :
  (0 < page_size)%Z ->
  let n := total_pages (Z.of_nat (length df)) page_size in
  concat (map (fun k => paginate_dataframe df page_size (Z.of_nat k))
            (seq 0 (Z.to_nat n))) = df /\
  (forall page_num, (n <= page_num)%Z ->
     paginate_dataframe df page_size page_num = []) /\
  (forall page_num, (0 <= page_num)%Z ->
     (Z.of_nat (length (paginate_dataframe df page_size page_num))
      <= page_size)%Z).
Proof.
  intros Hps n.
  destruct (total_pages_cover (Z.of_nat (length df)) page_size
              (Nat2Z.is_nonneg _) Hps) as (Hn1 & Hcover & _).
  fold n in Hn1, Hcover. split; [|split].
  - rewrite (map_ext _ (fun i => firstn (Z.to_nat page_size)
                                   (skipn (i * Z.to_nat page_size) df)))
      by (intros k; now apply paginate_nat).
    rewrite pages_concat. apply firstn_all2.
    rewrite <- Z2Nat.inj_mul by lia. lia.
  - intros page_num Hp. unfold paginate_dataframe.
    rewrite slice_nonneg by nia.
    rewrite skipn_all2 by nia. apply firstn_nil.
  - intros page_num Hp. unfold paginate_dataframe.
    rewrite slice_nonneg by nia. rewrite length_firstn. lia.
Qed.

Lemma pages_partition_the_rows_witness :
  (0 < 3)%Z /\
  map (fun k => paginate_dataframe [1; 2; 3; 4; 5; 6; 7] 3 (Z.of_nat k))
    (seq 0 (Z.to_nat (total_pages 7 3)))
  = [[1; 2; 3]; [4; 5; 6]; [7]] /\
  paginate_dataframe [1; 2; 3; 4; 5; 6; 7] 3 3 = [].
Proof.
  assert (H : (0 < 3)%Z) by reflexivity.
  split; [exact H|]. split; [vm_compute; reflexivity|].
  destruct (pages_partition_the_rows [1; 2; 3; 4; 5; 6; 7] 3 H)
    as (_ & Hpast & _).
  apply Hpast. vm_compute. discriminate.
Defined.

(** X14 (caption of a page).  For a page of a non-empty table, the caption
    "Showing records a to b of n" computed in [main] agrees with the page
    [paginate_dataframe] returns: 1 <= a <= b <= n, the page holds the rows
    numbered a to b (counting from 1), and so b - a + 1 rows. *)
Theorem page_matches_its_caption {A : Type} (df : list A)
  (page_size page_num : Z) :
  (0 < page_size)%Z ->
  (0 <= page_num < total_pages (Z.of_nat (length df)) page_size)%Z ->
  df <> [] ->
  let len := Z.of_nat (length df) in
  let a := start_record page_size page_num in
  let b := end_record len page_size page_num in
  (1 <= a <= b)%Z /\ (b <= len)%Z /\
  paginate_dataframe df page_size page_num
    = firstn (Z.to_nat (b - a + 1)) (skipn (Z.to_nat (a - 1)) df) /\
  Z.of_nat (length (paginate_dataframe df page_size page_num))
    = (b - a + 1)%Z.
Proof.
  intros Hps Hp Hne len a b.
  assert (Hlen : (0 < len)%Z).
  { unfold len. destruct df; [congruence|]. cbn [length]. lia. }
  destruct (total_pages_cover len page_size ltac:(lia) Hps) as (_ & _ & Hlast).
  specialize (Hlast Hlen). fold len in Hp.
  assert (Hstart : (page_num * page_size < len)%Z) by nia.
  unfold start_record, end_record in a, b.
  assert (Hab : (1 <= a <= b)%Z /\ (b <= len)%Z) by (unfold a, b; nia).
  split; [tauto|]. split; [tauto|].
  assert (Heq : paginate_dataframe df page_size page_num
                = firstn (Z.to_nat (b - a + 1)) (skipn (Z.to_nat (a - 1)) df)).
  { unfold paginate_dataframe. rewrite slice_nonneg by nia.
    replace (a - 1)%Z with (page_num * page_size)%Z by (unfold a; lia).
    replace (page_num * page_size + page_size - page_num * page_size)%Z
      with page_size by lia.
    destruct (Z.le_gt_cases ((page_num + 1) * page_size) len) as [Hin|Hout].
    - f_equal. unfold a, b. lia.
    - rewrite !firstn_all2; [reflexivity| |];
        rewrite length_skipn; unfold a, b, len in *; lia. }
  split; [exact Heq|].
  rewrite Heq, length_firstn, length_skipn. unfold a, b, len in *. lia.
Qed.

Lemma page_matches_its_caption_witness :
  (0 < 3)%Z /\ (0 <= 2 < total_pages 7 3)%Z /\
  start_record 3 2 = 7%Z /\ end_record 7 3 2 = 7%Z /\
  paginate_dataframe [1; 2; 3; 4; 5; 6; 7] 3 2 = [7].
Proof.
  assert (H1 : (0 < 3)%Z) by reflexivity.
  assert (H2 : (0 <= 2 < total_pages (Z.of_nat (length [1; 2; 3; 4; 5; 6; 7])) 3)%Z)
    by (vm_compute; split; [discriminate|reflexivity]).
  assert (H3 : [1; 2; 3; 4; 5; 6; 7] <> []) by discriminate.
  split; [exact H1|]. split; [exact H2|].
  split; [vm_compute; reflexivity|]. split; [vm_compute; reflexivity|].
  destruct (page_matches_its_caption [1; 2; 3; 4; 5; 6; 7] 3 2 H1 H2 H3)
    as (_ & _ & Heq & _).
  rewrite Heq. vm_compute. reflexivity.
Defined.

End PagingClaims.

(** * The query preparation script *)

Section PreprocessFacts.

Import Py Re TextSearcher Preprocess.

Lemma replace_char_In (old c : ascii) (new s : str) :
  In c (replace_char old new s) <->
  (In old s /\ In c new) \/ (In c s /\ c <> old).
Proof.
  unfold replace_char. rewrite in_flat_map. split.
  - intros (x & Hx & Hc). destruct (Ascii.eqb x old) eqn:E.
    + apply Ascii.eqb_eq in E. subst x. now left.
    + apply Ascii.eqb_neq in E. destruct Hc as [<-|[]]. now right.
  - intros [[Hold Hc]|[Hc Hne]].
    + exists old. split; [exact Hold|]. now rewrite Ascii.eqb_refl.
    + exists c. split; [exact Hc|].
      destruct (Ascii.eqb c old) eqn:E; [|now left].
      apply Ascii.eqb_eq in E. contradiction.
Qed.

Lemma replace_char_absent (old : ascii) (new s : str) :
  ~ In old s -> replace_char old new s = s.
Proof.
  unfold replace_char. induction s as [|x s IH]; intros H; [reflexivity|].
  cbn [flat_map]. destruct (Ascii.eqb x old) eqn:E.
  - apply Ascii.eqb_eq in E. subst x. exfalso. apply H. now left.
  - rewrite IH; [reflexivity|]. intros Hin. apply H. now right.
Qed.

Lemma escape_parentheses_In (c : ascii) (t : str) :
  In c (escape_parentheses t) ->
  In c t \/ In c ("\()s" : str).
Proof.
  unfold escape_parentheses. intros H.
  apply replace_char_In in H. destruct H as [[_ H]|[H _]].
  - right. cbn in H |- *. tauto.
  - apply replace_char_In in H. destruct H as [[_ H]|[H _]].
    + right. cbn in H |- *. tauto.
    + now left.
Qed.

Lemma escape_parentheses_backslash (t : str) :
  In "("%char t \/ In ")"%char t -> In "\"%char (escape_parentheses t).
Proof.
  unfold escape_parentheses. intros [H|H]; apply replace_char_In.
  - right. split; [|discriminate]. apply replace_char_In. left.
    split; [exact H|]. cbn. tauto.
  - left. split; [|cbn; tauto]. apply replace_char_In. right.
    split; [exact H|discriminate].
Qed.

Lemma strip_left_In (c : ascii) (s : str) :
  isspace c = false -> In c s -> In c (strip_left s).
Proof.
  intros Hc. induction s as [|x s IH]; [contradiction|].
  rewrite strip_left_cons. intros [->|H].
  - rewrite Hc. now left.
  - destruct (isspace x); [now apply IH|now right].
Qed.

Lemma strip_In (c : ascii) (s : str) :
  isspace c = false -> In c s -> In c (strip s).
Proof.
  intros Hc H. unfold strip. apply -> in_rev.
  apply strip_left_In; [exact Hc|]. apply -> in_rev.
  now apply strip_left_In.
Qed.

Lemma lower_char_backslash (c : ascii) :
  lower_char c = "\"%char -> c = "\"%char.
Proof.
  destruct c as [[|] [|] [|] [|] [|] [|] [|] [|]]; vm_compute;
    intros H; (reflexivity || discriminate H).
Qed.

Lemma firstn_skipn_In {A : Type} (x : A) (n i : nat) (l : list A) :
  In x (firstn n (skipn i l)) -> In x l.
Proof.
  intros H. rewrite <- (firstn_skipn i l). apply in_or_app. right.
  rewrite <- (firstn_skipn n (skipn i l)). apply in_or_app. now left.
Qed.

(** A query with a backslash finds only texts with a backslash. *)
Lemma backslash_query_needs_backslash (q txt : str) :
  In "\"%char q -> ~ In "\"%char txt ->
  search (word_pattern (lower q)) (lower txt) = None.
Proof.
  intros Hq Htxt.
  destruct (search (word_pattern (lower q)) (lower txt)) as [m|] eqn:E;
    [exfalso|reflexivity].
  assert (Hs : search (word_pattern (lower q)) (lower txt) <> None)
    by congruence.
  apply search_word_pattern_iff in Hs. destruct Hs as (i & _ & Hocc & _).
  assert (Hin : In "\"%char (lower txt)).
  { apply (firstn_skipn_In _ (length (lower q)) i). rewrite Hocc.
    unfold lower. apply in_map_iff. exists "\"%char. split; [reflexivity|exact Hq]. }
  unfold lower in Hin. apply in_map_iff in Hin. destruct Hin as (c & Hc & Hin).
  apply lower_char_backslash in Hc. subst c. contradiction.
Qed.

End PreprocessFacts.

Section PreprocessClaims.

Import Py Re TextSearcher Preprocess.

(** X15 (one term per row).  [preprocess.py] raises when the French column
    has rows and no string.  Otherwise its output is, row by row and in
    order: a row with a missing French cell, unchanged; and for a row whose
    French cell holds k semicolons, k + 1 rows, one per piece between the
    semicolons, in order, with the other cells repeated and the parentheses
    of the piece escaped.  A piece without parentheses is unchanged, and
    escaping brings in no semicolon, so no French term of the output
    contains one. *)
Theorem preprocess_one_term_per_row (query : list query_row) :
  (Pd.infer_dtype (map French query) = Pd.float64 ->
   preprocess query = None) /\
  (Pd.infer_dtype (map French query) = Pd.object ->
   exists groups,
     preprocess query = Some (concat groups) /\
     Forall2
       (fun r g =>
          match French r with
          | None => g = [r]
          | Some c =>
              exists pieces,
                join ";" pieces = c /\
                Forall (fun t => ~ In ";"%char t) pieces /\
                length pieces = S (count_occ ascii_dec c ";"%char) /\
                g = map (fun t => {| others := others r;
                                     French := Some (escape_parentheses t) |})
                      pieces
          end)
       query groups) /\
  (forall t, ~ In "("%char t -> ~ In ")"%char t -> escape_parentheses t = t) /\
  (forall t, ~ In ";"%char t -> ~ In ";"%char (escape_parentheses t)).
Proof.
  split; [|split; [|split]].
  - intros E. unfold preprocess. now rewrite E.
  - intros E. exists (map explode_row query). split.
    + unfold preprocess. rewrite E. now rewrite flat_map_concat_map.
    + clear E. induction query as [|r query IH]; cbn [map]; constructor;
        [|exact IH].
      unfold explode_row. destruct (French r) as [c|]; [|reflexivity].
      exists (split_on ";" c). split; [apply join_split_on|].
      split; [apply split_on_no_sep|]. split; [apply split_on_length|].
      reflexivity.
  - intros t H1 H2. unfold escape_parentheses.
    rewrite (replace_char_absent "(" _ t H1). now apply replace_char_absent.
  - intros t Ht Hin. apply escape_parentheses_In in Hin.
    destruct Hin as [Hin|Hin]; [contradiction|].
    cbn in Hin. repeat (destruct Hin as [Hin|Hin]; [discriminate Hin|]).
    exact Hin.
Qed.

(** X16 (escaped terms and the search).  A French term with a parenthesis
    leaves [preprocess.py] with a backslash in it.  [search_text] searches
    it literally, so on a corpus whose texts have no backslash a call that
    returns finds nothing, whatever the language filter and the radius. *)
Theorem escaped_term_finds_no_plain_text (self : searcher) (t : str)
  (lf : option str) (cw : Z) (h h' : heap) (d : DataFrame)
  (res : list result) :
  In "("%char t \/ In ")"%char t ->
  corpus h self = Some d ->
  (forall row txt, In row d -> THE_LAW row = Some txt -> ~ In "\"%char txt) ->
  search_text self (strip (escape_parentheses t)) lf cw h = Some (res, h') ->
  In "\"%char (strip (escape_parentheses t)) /\ res = [].
Proof.
  intros Ht Hd Hplain Hrun.
  assert (Hq : In "\"%char (strip (escape_parentheses t))).
  { apply strip_In; [reflexivity|]. now apply escape_parentheses_backslash. }
  split; [exact Hq|].
  apply search_text_some in Hrun. destruct Hrun as (d' & Hd' & ->).
  assert (d' = d) by congruence. subst d'.
  destruct (matches_of d (strip (escape_parentheses t)) lf cw) as [|r rs] eqn:E;
    [reflexivity|exfalso].
  assert (Hr : In r (matches_of d (strip (escape_parentheses t)) lf cw))
    by (rewrite E; now left).
  apply matches_of_In in Hr. destruct Hr as (row & txt & Hrow & Htxt & Hs & _).
  apply Hs. apply backslash_query_needs_backslash; [exact Hq|].
  apply (Hplain row); [|exact Htxt]. now apply searched_rows_incl in Hrow.
Qed.

Lemma escaped_term_finds_no_plain_text_witness :
  escape_parentheses "destitution (of the applicant)"
    = "destitution \(of the applicant\)\s" /\
  exists h',
    search_text Fixtures.mixed_self
      (strip (escape_parentheses "destitution (of the applicant)")) None 2
      Fixtures.mixed_heap = Some ([], h').
Proof.
  split; [vm_compute; reflexivity|].
  assert (Ht : In "("%char ("destitution (of the applicant)" : str) \/
               In ")"%char ("destitution (of the applicant)" : str)).
  { left. vm_compute. do 12 right. now left. }
  assert (Hd : corpus Fixtures.mixed_heap Fixtures.mixed_self
               = Some Fixtures.mixed_corpus) by (vm_compute; reflexivity).
  assert (Hplain : forall row txt, In row Fixtures.mixed_corpus ->
                     THE_LAW row = Some txt -> ~ In "\"%char txt).
  { intros row txt Hrow Htxt.
    destruct Hrow as [<-|[<-|[]]]; injection Htxt as <-; vm_compute;
      intros H; repeat (destruct H as [H|H]; [discriminate H|]); exact H. }
  destruct (search_text Fixtures.mixed_self
              (strip (escape_parentheses "destitution (of the applicant)"))
              None 2 Fixtures.mixed_heap) as [[res h']|] eqn:E;
    [|vm_compute in E; discriminate E].
  destruct (escaped_term_finds_no_plain_text Fixtures.mixed_self
              "destitution (of the applicant)" None 2 Fixtures.mixed_heap h'
              Fixtures.mixed_corpus res Ht Hd Hplain E) as [_ ->].
  now exists h'.
Defined.

End PreprocessClaims.

(** ** Tokens and occurrences *)

Section TokenFacts.

Import Py Re TextSearcher.






















End TokenFacts.

Section TokenClaims.

Import Py Re TextSearcher.





End TokenClaims.

(** ** Repeated runs *)

Section RepeatClaims.

Import Py Re TextSearcher.

(** X19 (repeated runs).  [search_all_queries] keeps no state between
    runs: a call that returns leaves every frame object of the store as it
    was, and a second call on the store it leaves returns the same
    summaries. *)
Theorem search_all_queries_is_repeatable (self : searcher) (cw : Z)
  (h h' : heap) (out : list summary) :
  search_all_queries self cw h = Some (out, h') ->
  (forall l x, nth_error h l = Some x -> nth_error h' l = Some x) /\
  exists h'', search_all_queries self cw h' = Some (out, h'').
Proof.
  intros Hrun. apply search_all_queries_shape in Hrun.
  destruct Hrun as (all & Hc & -> & _).
  apply collect_results_again in Hc. destruct Hc as ((t & ->) & h'' & Hc').
  split.
  - intros l x Hx. now apply nth_error_extend.
  - exists h''. now apply search_all_queries_collect.
Qed.

Lemma search_all_queries_is_repeatable_witness :
  exists out h' h'',
    search_all_queries Fixtures.twice_self 2 Fixtures.mixed_heap
      = Some (out, h') /\
    length out = 2 /\
    search_all_queries Fixtures.twice_self 2 h' = Some (out, h'').
Proof.
  destruct (search_all_queries Fixtures.twice_self 2 Fixtures.mixed_heap)
    as [[out h']|] eqn:E; [|vm_compute in E; discriminate E].
  destruct (search_all_queries_is_repeatable Fixtures.twice_self 2
              Fixtures.mixed_heap h' out E) as (_ & h'' & Hrun').
  exists out, h', h''. split; [reflexivity|]. split; [|exact Hrun'].
  vm_compute in E. injection E as <- _. reflexivity.
Defined.

End RepeatClaims.
